(** * libzmq [mechanism.cpp]: handshake metadata codec and dispatcher

    A shallow embedding of [zmq::mechanism_t] (src/mechanism.cpp): the
    property encoder [add_property], the basic property set builder, the
    metadata parser [parse_metadata] and the socket type check
    [check_socket_type], followed by the properties proved about them.

    Conventions of the embedding.
    - A C++ (pointer, size) pair that designates a byte range is the list of
      the bytes of that range; its size is the length of the list.
    - A [const char *] is the [string] of its characters up to the
      terminating NUL, so [strlen] is [String.length].
    - [std::string] is [string]; the constructor [std::string (p, n)] is
      [string_of_list_byte] on the [n] bytes at [p].
    - [zmq_assert] aborts the process: a function that can reach one returns
      an [option], [None] meaning the process was aborted.
    - A member function that mutates the object takes the object and returns
      the new one.  [errno] is carried in the same record. *)

From Stdlib Require Import ZArith List Lia String Ascii.
From Stdlib Require Import Strings.Byte.
From stdpp Require Import gmap strings.
Import ListNotations.
Open Scope string_scope.
Open Scope list_scope.
Open Scope Z_scope.

(** ** Bytes and machine integers *)

Abbreviation byte := Byte.byte.

(** The value of an [unsigned char]. *)
Definition byte_to_Z (b : byte) : Z := Z.of_N (Byte.to_N b).

(** [static_cast <unsigned char>]: reduction modulo 256. *)
Definition byte_of_Z (z : Z) : byte :=
  match Byte.of_N (Z.to_N (z mod 256)) with
  | Some b => b
  | None => x00
  end.

(** [size_t] arithmetic wraps around; the model is the LP64 one. *)
Definition size_t_bits : Z := 64.
Definition size_t_wrap (z : Z) : Z := z mod 2 ^ size_t_bits.

(** Modelled from the spec: [put_uint32] of wire.hpp, which stores a 32-bit
    value as 4 bytes, big-endian ("4-byte big-endian value length"). *)
Definition put_uint32 (value : Z) : list byte :=
  [ byte_of_Z (Z.land (Z.shiftr value 24) 255);
    byte_of_Z (Z.land (Z.shiftr value 16) 255);
    byte_of_Z (Z.land (Z.shiftr value 8) 255);
    byte_of_Z (Z.land value 255) ].

(** Modelled from the spec: [get_uint32] of wire.hpp, which reads 4 bytes,
    big-endian, as a 32-bit value. *)
Definition get_uint32 (buffer_ : list byte) : Z :=
  Z.lor (Z.lor (Z.lor (Z.shiftl (byte_to_Z (nth 0 buffer_ x00)) 24)
                      (Z.shiftl (byte_to_Z (nth 1 buffer_ x00)) 16))
               (Z.shiftl (byte_to_Z (nth 2 buffer_ x00)) 8))
        (byte_to_Z (nth 3 buffer_ x00)).

(** [memcpy (dst + off, src, |src|)] on the region [dst]. *)
Definition memcpy (dst : list byte) (off : nat) (src : list byte) : list byte :=
  take off dst ++ src ++ drop (off + length src) dst.

(** [zmq_assert (c)]. *)
Definition zmq_assert (c : bool) : option unit :=
  if c then Some tt else None.

(** ** Constants of zmq.h and errno.h *)

(** Modelled from the spec: the socket type codes of zmq.h, as listed by the
    fixed role name table (index -> name). *)
Definition ZMQ_PAIR : Z := 0.
Definition ZMQ_PUB : Z := 1.
Definition ZMQ_SUB : Z := 2.
Definition ZMQ_REQ : Z := 3.
Definition ZMQ_REP : Z := 4.
Definition ZMQ_DEALER : Z := 5.
Definition ZMQ_ROUTER : Z := 6.
Definition ZMQ_PULL : Z := 7.
Definition ZMQ_PUSH : Z := 8.
Definition ZMQ_XPUB : Z := 9.
Definition ZMQ_XSUB : Z := 10.
Definition ZMQ_STREAM : Z := 11.
Definition ZMQ_SERVER : Z := 12.
Definition ZMQ_CLIENT : Z := 13.
Definition ZMQ_RADIO : Z := 14.
Definition ZMQ_DISH : Z := 15.
Definition ZMQ_GATHER : Z := 16.
Definition ZMQ_SCATTER : Z := 17.
Definition ZMQ_DGRAM : Z := 18.

(** Modelled from the spec: zmq.h's key of the user identifier property. *)
Definition ZMQ_MSG_PROPERTY_USER_ID : string := "User-Id".

(** The two error numbers the parser sets (their Linux values). *)
Definition EINVAL : Z := 22.
Definition EPROTO : Z := 71.

Definition ZMTP_PROPERTY_SOCKET_TYPE : string := "Socket-Type".
Definition ZMTP_PROPERTY_IDENTITY : string := "Identity".

(** ** The data model *)

(** Modelled from the spec: [options_t] (options.hpp), the configuration
    source exposing the local role, the local routing identifier bytes and
    the receive-peer-routing-id flag.  [routing_id_size] is the size of the
    identifier. *)
Module Options.
Record t : Type := mk {
  type : Z;
  routing_id : list byte;
  recv_routing_id : bool
}.
Definition routing_id_size (o : t) : Z := Z.of_nat (length (routing_id o)).
End Options.

(** Modelled from the spec: [metadata_t::dict_t] (metadata.hpp), the property
    dictionary: a mapping from property name to value with unique keys, as a
    [std::map] from [std::string] to [std::string] is. *)
Abbreviation dict_t := (gmap string string).

(** [insert (value_type (k, v))] on a container with unique keys, as the C++
    standard library defines it: the pair is inserted only if the container
    has no element with key [k]; an existing element is left as it is. *)
Definition dict_insert (k v : string) (m : dict_t) : dict_t :=
  match m !! k with
  | Some _ => m
  | None => <[k := v]> m
  end.

Record mechanism_t : Type := mk_mechanism {
  options : Options.t;
  routing_id : list byte;
  user_id : list byte;
  zap_properties : dict_t;
  zmtp_properties : dict_t;
  errno : Z
}.

Definition set_routing_id (b : list byte) (m : mechanism_t) : mechanism_t :=
  mk_mechanism (options m) b (user_id m) (zap_properties m)
               (zmtp_properties m) (errno m).
Definition set_user_id_blob (b : list byte) (m : mechanism_t) : mechanism_t :=
  mk_mechanism (options m) (routing_id m) b (zap_properties m)
               (zmtp_properties m) (errno m).
Definition set_zap_properties (d : dict_t) (m : mechanism_t) : mechanism_t :=
  mk_mechanism (options m) (routing_id m) (user_id m) d
               (zmtp_properties m) (errno m).
Definition set_zmtp_properties (d : dict_t) (m : mechanism_t) : mechanism_t :=
  mk_mechanism (options m) (routing_id m) (user_id m) (zap_properties m)
               d (errno m).
Definition set_errno (e : Z) (m : mechanism_t) : mechanism_t :=
  mk_mechanism (options m) (routing_id m) (user_id m) (zap_properties m)
               (zmtp_properties m) e.

(** The virtual member [property]: it returns an [int] and may assign
    [errno] ([Some e]) or leave it ([None]).  A concrete mechanism overrides
    it; the base class implementation is [default_mechanism]. *)
Class Mechanism : Type := {
  property : string -> list byte -> Z * option Z
}.

(** [mechanism_t::property]: "Default implementation does not check property
    values and returns 0 to signal success." *)
Definition default_mechanism : Mechanism :=
  {| property := fun _ _ => (0, None) |}.

(** A sample override: a mechanism that refuses the property "X-Deny",
    assigning [EACCES] (13) to [errno], and accepts every other one. *)
Definition refusing_mechanism : Mechanism :=
  {| property := fun name _ =>
       if (name =? "X-Deny")%string then (-1, Some 13) else (0, None) |}.

(** ** Peer identity store *)

Definition set_peer_routing_id (id : list byte) (m : mechanism_t) : mechanism_t :=
  set_routing_id id m.

Definition set_user_id (data_ : list byte) (m : mechanism_t) : mechanism_t :=
  let m := set_user_id_blob data_ m in
  set_zap_properties
    (dict_insert ZMQ_MSG_PROPERTY_USER_ID (string_of_list_byte data_)
                 (zap_properties m)) m.

Definition get_user_id (m : mechanism_t) : list byte := user_id m.

(** ** Property codec *)

Definition socket_type_names : list string :=
  ["PAIR"; "PUB"; "SUB"; "REQ"; "REP"; "DEALER"; "ROUTER"; "PULL"; "PUSH";
   "XPUB"; "XSUB"; "STREAM"; "SERVER"; "CLIENT"; "RADIO"; "DISH";
   "GATHER"; "SCATTER"; "DGRAM"].

Definition socket_type_string (socket_type : Z) : option string :=
  zmq_assert ((0 <=? socket_type) && (socket_type <=? 18)) ;;
  Some (nth (Z.to_nat socket_type) socket_type_names "").

(** The static [::property_len]. *)
Definition property_len (name_len value_len : Z) : Z :=
  size_t_wrap (1 + name_len + 4 + value_len).

Definition name_len (name : string) : option Z :=
  let name_len := Z.of_nat (String.length name) in
  zmq_assert (name_len <=? 255) ;;
  Some name_len.

(** [add_property (ptr, ptr_capacity, name, value, value_len)]: [ptr] is the
    writable region of [ptr_capacity] bytes, [value] the [value_len] bytes of
    the value.  The result is the region after the writes and the returned
    length. *)
Definition add_property (ptr : list byte) (name : string) (value : list byte)
  : option (list byte * Z) :=
  let ptr_capacity := Z.of_nat (length ptr) in
  let value_len := Z.of_nat (length value) in
  name_len ← name_len name;
  let total_len := property_len name_len value_len in
  zmq_assert (total_len <=? ptr_capacity) ;;
  let ptr := memcpy ptr 0 [byte_of_Z name_len] in
  let ptr := memcpy ptr 1 (list_byte_of_string name) in
  zmq_assert (value_len <=? 0x7FFFFFFF) ;;
  let ptr := memcpy ptr (1 + Z.to_nat name_len) (put_uint32 value_len) in
  let ptr := memcpy ptr (1 + Z.to_nat name_len + 4) value in
  Some (ptr, total_len).

(** [mechanism_t::property_len (name, value_len)]. *)
Definition mechanism_property_len (name : string) (value_len : Z) : option Z :=
  name_len ← name_len name;
  Some (property_len name_len value_len).

(** ** Basic property set builder *)

Definition has_identity_property (o : Options.t) : bool :=
  (Options.type o =? ZMQ_REQ) || (Options.type o =? ZMQ_DEALER)
  || (Options.type o =? ZMQ_ROUTER).

(** [add_basic_properties (buf, buf_capacity)]: [buf] is the writable region
    of [buf_capacity] bytes.  After the first property [ptr] is [buf] advanced
    by the returned length, so the second call gets the region
    [drop n buf], of [buf_capacity - (ptr - buf)] bytes. *)
Definition add_basic_properties (buf : list byte) (m : mechanism_t)
  : option (list byte * Z) :=
  socket_type ← socket_type_string (Options.type (options m));
  r ← add_property buf ZMTP_PROPERTY_SOCKET_TYPE
        (list_byte_of_string socket_type);
  let buf := r.1 in
  let ptr := r.2 in
  if has_identity_property (options m) then
    r ← add_property (drop (Z.to_nat ptr) buf) ZMTP_PROPERTY_IDENTITY
          (Options.routing_id (options m));
    Some (take (Z.to_nat ptr) buf ++ r.1, ptr + r.2)
  else
    Some (buf, ptr).

Definition basic_properties_len (m : mechanism_t) : option Z :=
  socket_type ← socket_type_string (Options.type (options m));
  l1 ← mechanism_property_len ZMTP_PROPERTY_SOCKET_TYPE
         (Z.of_nat (String.length socket_type));
  l2 ← (if has_identity_property (options m)
        then mechanism_property_len ZMTP_PROPERTY_IDENTITY
               (Options.routing_id_size (options m))
        else Some 0);
  Some (size_t_wrap (l1 + l2)).

(** ** Socket type compatibility *)

Definition check_socket_type (m : mechanism_t) (type_ : string) : bool :=
  let t := Options.type (options m) in
  if t =? ZMQ_REQ then (type_ =? "REP")%string || (type_ =? "ROUTER")%string
  else if t =? ZMQ_REP then (type_ =? "REQ")%string || (type_ =? "DEALER")%string
  else if t =? ZMQ_DEALER then
    (type_ =? "REP")%string || (type_ =? "DEALER")%string
    || (type_ =? "ROUTER")%string
  else if t =? ZMQ_ROUTER then
    (type_ =? "REQ")%string || (type_ =? "DEALER")%string
    || (type_ =? "ROUTER")%string
  else if t =? ZMQ_PUSH then (type_ =? "PULL")%string
  else if t =? ZMQ_PULL then (type_ =? "PUSH")%string
  else if t =? ZMQ_PUB then (type_ =? "SUB")%string || (type_ =? "XSUB")%string
  else if t =? ZMQ_SUB then (type_ =? "PUB")%string || (type_ =? "XPUB")%string
  else if t =? ZMQ_XPUB then (type_ =? "SUB")%string || (type_ =? "XSUB")%string
  else if t =? ZMQ_XSUB then (type_ =? "PUB")%string || (type_ =? "XPUB")%string
  else if t =? ZMQ_PAIR then (type_ =? "PAIR")%string
  else if t =? ZMQ_SERVER then (type_ =? "CLIENT")%string
  else if t =? ZMQ_CLIENT then (type_ =? "SERVER")%string
  else if t =? ZMQ_RADIO then (type_ =? "DISH")%string
  else if t =? ZMQ_DISH then (type_ =? "RADIO")%string
  else if t =? ZMQ_GATHER then (type_ =? "SCATTER")%string
  else if t =? ZMQ_SCATTER then (type_ =? "GATHER")%string
  else if t =? ZMQ_DGRAM then (type_ =? "DGRAM")%string
  else false.

(** ** Metadata dispatcher *)

(** How one run of the body of the [while] loop ends. *)
Inductive step : Type :=
| Continue (ptr_ : list byte) (bytes_left : Z) (m : mechanism_t)
| Break (bytes_left : Z) (m : mechanism_t)
| Return (rc : Z) (m : mechanism_t).

(** The [if / else if / else] chain that handles a decoded property:
    [inr rc] is [return rc], [inl] falls through to the insertion. *)
Definition handle_property `{Mechanism} (name : string) (value : list byte)
    (m : mechanism_t) : mechanism_t + mechanism_t :=
  if (name =? ZMTP_PROPERTY_IDENTITY)%string
     && Options.recv_routing_id (options m) then
    inl (set_peer_routing_id value m)
  else if (name =? ZMTP_PROPERTY_SOCKET_TYPE)%string then
    let socket_type := string_of_list_byte value in
    if negb (check_socket_type m socket_type) then
      inr (set_errno EINVAL m)
    else inl m
  else
    let rc := property name value in
    let m := match rc.2 with Some e => set_errno e m | None => m end in
    if rc.1 =? -1 then inr m else inl m.

(** The insertion that ends the body of the loop. *)
Definition record_property (zap_flag : bool) (name : string)
    (value : list byte) (m : mechanism_t) : mechanism_t :=
  if zap_flag then
    set_zap_properties
      (dict_insert name (string_of_list_byte value) (zap_properties m)) m
  else
    set_zmtp_properties
      (dict_insert name (string_of_list_byte value) (zmtp_properties m)) m.

(** The body of [while (bytes_left > 1)].  The subtractions on [bytes_left]
    are written without wrap-around: each is guarded by the test before it
    ([loop_body_decreases] shows the counter stays non-negative). *)
Definition loop_body `{Mechanism} (zap_flag : bool) (ptr_ : list byte)
    (bytes_left : Z) (m : mechanism_t) : step :=
  let name_length := byte_to_Z (nth 0 ptr_ x00) in
  let ptr_ := drop 1 ptr_ in
  let bytes_left := bytes_left - 1 in
  if bytes_left <? name_length then Break bytes_left m else
  let name := string_of_list_byte (take (Z.to_nat name_length) ptr_) in
  let ptr_ := drop (Z.to_nat name_length) ptr_ in
  let bytes_left := bytes_left - name_length in
  if bytes_left <? 4 then Break bytes_left m else
  let value_length := get_uint32 ptr_ in
  let ptr_ := drop 4 ptr_ in
  let bytes_left := bytes_left - 4 in
  if bytes_left <? value_length then Break bytes_left m else
  let value := take (Z.to_nat value_length) ptr_ in
  let ptr_ := drop (Z.to_nat value_length) ptr_ in
  let bytes_left := bytes_left - value_length in
  match handle_property name value m with
  | inr m => Return (-1) m
  | inl m => Continue ptr_ bytes_left (record_property zap_flag name value m)
  end.

(** How the [while] loop ends: its condition fails or a [break] is taken
    ([Exit], with the counter at that point), or the function returns from
    inside the loop ([Returned]). *)
Inductive loop_end : Type :=
| Exit (bytes_left : Z) (m : mechanism_t)
| Returned (rc : Z) (m : mechanism_t).

(** The [while] loop, run for at most [fuel] iterations; [None] when the fuel
    runs out before the loop ends. *)
Fixpoint while_loop `{Mechanism} (fuel : nat) (zap_flag : bool)
    (ptr_ : list byte) (bytes_left : Z) (m : mechanism_t) : option loop_end :=
  if 1 <? bytes_left then
    match fuel with
    | O => None
    | S fuel =>
        match loop_body zap_flag ptr_ bytes_left m with
        | Continue ptr_ bytes_left m => while_loop fuel zap_flag ptr_ bytes_left m
        | Break bytes_left m => Some (Exit bytes_left m)
        | Return rc m => Some (Returned rc m)
        end
    end
  else Some (Exit bytes_left m).

(** [parse_metadata (ptr_, length_, zap_flag)] on the byte range [ptr_]; the
    result is the returned [int] and the object after the call. *)
Definition parse_metadata `{Mechanism} (ptr_ : list byte) (zap_flag : bool)
    (m : mechanism_t) : option (Z * mechanism_t) :=
  let length_ := Z.of_nat (length ptr_) in
  match while_loop (length ptr_) zap_flag ptr_ length_ m with
  | None => None
  | Some (Returned rc m) => Some (rc, m)
  | Some (Exit bytes_left m) =>
      if 0 <? bytes_left then Some (-1, set_errno EPROTO m)
      else Some (0, m)
  end.

(** ** The wire format, as the specification words it *)

(** One property on the wire: 1-byte name length, name bytes, 4-byte
    big-endian value length, value bytes. *)
Definition wire_property (p : string * list byte) : list byte :=
  byte_of_Z (Z.of_nat (String.length p.1))
  :: list_byte_of_string p.1
  ++ put_uint32 (Z.of_nat (length p.2)) ++ p.2.

(** A property list: the concatenation of its properties. *)
Definition wire_properties (ps : list (string * list byte)) : list byte :=
  concat (map wire_property ps).

(** The bounds of a property: name of at most 255 bytes, value of at most
    2^31-1 bytes. *)
Definition well_formed (p : string * list byte) : Prop :=
  Z.of_nat (String.length p.1) <= 255 /\ Z.of_nat (length p.2) <= 2 ^ 31 - 1.

(** The bounds of a property the wire format can carry: the name length
    fits 1 byte, the value length 4 bytes. *)
Definition wire_bounded (p : string * list byte) : Prop :=
  Z.of_nat (String.length p.1) <= 255 /\ Z.of_nat (length p.2) <= 2 ^ 32 - 1.

(** What the loop does with a list of decoded properties, one after the
    other: [inr] when one of them makes the function return. *)
Fixpoint dispatch_all `{Mechanism} (zap_flag : bool)
    (ps : list (string * list byte)) (m : mechanism_t)
  : mechanism_t + mechanism_t :=
  match ps with
  | [] => inl m
  | p :: ps =>
      match handle_property p.1 p.2 m with
      | inr m => inr m
      | inl m => dispatch_all zap_flag ps (record_property zap_flag p.1 p.2 m)
      end
  end.

(** The value of the first property named [name] in a property list. *)
Fixpoint first_value (name : string) (ps : list (string * list byte))
  : option string :=
  match ps with
  | [] => None
  | p :: ps =>
      if (p.1 =? name)%string then Some (string_of_list_byte p.2)
      else first_value name ps
  end.

(** The compatibility table, as the specification lists it: a local role and
    the peer role names it accepts. *)
Definition compatibility_table : list (Z * list string) :=
  [ (ZMQ_PAIR, ["PAIR"]);
    (ZMQ_REQ, ["REP"; "ROUTER"]);
    (ZMQ_REP, ["REQ"; "DEALER"]);
    (ZMQ_DEALER, ["REP"; "DEALER"; "ROUTER"]);
    (ZMQ_ROUTER, ["REQ"; "DEALER"; "ROUTER"]);
    (ZMQ_PUSH, ["PULL"]);
    (ZMQ_PULL, ["PUSH"]);
    (ZMQ_PUB, ["SUB"; "XSUB"]);
    (ZMQ_SUB, ["PUB"; "XPUB"]);
    (ZMQ_XPUB, ["SUB"; "XSUB"]);
    (ZMQ_XSUB, ["PUB"; "XPUB"]);
    (ZMQ_SERVER, ["CLIENT"]);
    (ZMQ_CLIENT, ["SERVER"]);
    (ZMQ_RADIO, ["DISH"]);
    (ZMQ_DISH, ["RADIO"]);
    (ZMQ_GATHER, ["SCATTER"]);
    (ZMQ_SCATTER, ["GATHER"]);
    (ZMQ_DGRAM, ["DGRAM"]) ].

(** The row of a local role, if the table has one. *)
Definition table_row (local_role : Z) : option (list string) :=
  option_map snd (find (fun row => local_role =? row.1) compatibility_table).

(** [is_compatible] of the specification: the peer role name is in the row
    of the local role; a role without a row accepts nothing. *)
Definition is_compatible (local_role : Z) (peer_role_name : string) : bool :=
  match table_row local_role with
  | Some names => existsb (String.eqb peer_role_name) names
  | None => false
  end.

(** The dictionary that [parse_metadata] fills for a given [zap_flag], and
    the other one. *)
Definition selected_properties (zap_flag : bool) (m : mechanism_t) : dict_t :=
  if zap_flag then zap_properties m else zmtp_properties m.
Definition other_properties (zap_flag : bool) (m : mechanism_t) : dict_t :=
  if zap_flag then zmtp_properties m else zap_properties m.

(** A value of 2^31 bytes, one more than the bound of a property value. *)
Definition long_value : list byte := repeat x00 (Z.to_nat (2 ^ 31)).

(** Sample objects: a fresh mechanism with the given options, and three
    local configurations. *)
Definition mechanism_init (o : Options.t) : mechanism_t :=
  mk_mechanism o [] [] ∅ ∅ 0.

Definition req_mechanism : mechanism_t :=
  mechanism_init (Options.mk ZMQ_REQ [] true).
Definition router_mechanism : mechanism_t :=
  mechanism_init (Options.mk ZMQ_ROUTER [x61; x62; x63] true).
Definition push_mechanism : mechanism_t :=
  mechanism_init (Options.mk ZMQ_PUSH [] false).

(** ** Messages *)

(** Modelled from the spec: [msg_t] (msg.hpp), the message container: a
    buffer of exactly the size asked for, and flags. *)
Record msg_t : Type := mk_msg {
  msg_data : list byte;
  msg_flags : Z
}.

(** Modelled from the spec: what the message container leaves open.
    [init_size_ok n] tells whether a buffer of [n] bytes can be allocated,
    [init_size_byte n i] is the byte a fresh buffer of [n] bytes holds at
    index [i], and [msg_routing_id] is the flag [msg_t::routing_id], the
    routing-id marker. *)
Class Msg : Type := {
  init_size_ok : Z -> bool;
  init_size_byte : Z -> nat -> byte;
  msg_routing_id : Z
}.

(** Modelled from the spec: [msg_t::init_size (size_)], the allocation of a
    message of exactly [size_] bytes.  It returns 0 and the fresh message,
    with no flag set, or -1 when the allocation fails. *)
Definition init_size `{Msg} (size_ : Z) (msg_ : msg_t) : Z * msg_t :=
  if init_size_ok size_ then
    (0, mk_msg (map (init_size_byte size_) (seq 0 (Z.to_nat size_))) 0)
  else (-1, msg_).

(** Modelled from the spec: [msg_t::set_flags (flags_)], which marks the
    message with the flags given. *)
Definition set_flags (flags_ : Z) (msg_ : msg_t) : msg_t :=
  mk_msg (msg_data msg_) (Z.lor (msg_flags msg_) flags_).

(** [errno_assert (c)] aborts the process as [zmq_assert] does. *)
Definition errno_assert (c : bool) : option unit := zmq_assert c.

(** A sample message container: every allocation succeeds and gives zeroed
    bytes; the routing-id flag is 64. *)
Definition zeroed_msg : Msg :=
  {| init_size_ok := fun _ => true;
     init_size_byte := fun _ _ => x00;
     msg_routing_id := 64 |}.

Definition empty_msg : msg_t := mk_msg [] 0.

(** ** Functions that fill a message *)

(** [peer_routing_id (msg_)]: the result is the message [msg_] points to
    after the call. *)
Definition peer_routing_id `{Msg} (msg_ : msg_t) (m : mechanism_t)
  : option msg_t :=
  let r := init_size (Z.of_nat (length (routing_id m))) msg_ in
  let rc := r.1 in
  let msg_ := r.2 in
  errno_assert (rc =? 0) ;;
  let msg_ := mk_msg (memcpy (msg_data msg_) 0 (routing_id m))
                     (msg_flags msg_) in
  Some (set_flags msg_routing_id msg_).

(** [make_command_with_basic_properties (msg_, prefix, prefix_len)]: [prefix]
    is the list of the [prefix_len] bytes of the prefix.  After the prefix is
    copied [ptr] is the data advanced by [prefix_len], so
    [add_basic_properties] gets the region [drop prefix_len data], of
    [command_size - (ptr - data)] bytes. *)
Definition make_command_with_basic_properties `{Msg} (msg_ : msg_t)
    (prefix : list byte) (m : mechanism_t) : option msg_t :=
  let prefix_len := Z.of_nat (length prefix) in
  n ← basic_properties_len m;
  let command_size := size_t_wrap (prefix_len + n) in
  let r := init_size command_size msg_ in
  let rc := r.1 in
  let msg_ := r.2 in
  errno_assert (rc =? 0) ;;
  let data := memcpy (msg_data msg_) 0 prefix in
  r ← add_basic_properties (drop (length prefix) data) m;
  Some (mk_msg (take (length prefix) data ++ r.1) (msg_flags msg_)).

(** ** Further notions used by the statements *)

(** The properties [add_basic_properties] writes, in order. *)
Definition basic_property_list (m : mechanism_t) : list (string * list byte) :=
  match socket_type_string (Options.type (options m)) with
  | Some socket_type =>
      (ZMTP_PROPERTY_SOCKET_TYPE, list_byte_of_string socket_type)
      :: (if has_identity_property (options m)
          then [(ZMTP_PROPERTY_IDENTITY, Options.routing_id (options m))]
          else [])
  | None => []
  end.

(** The value of the last property named "Identity" in a property list. *)
Fixpoint last_identity (ps : list (string * list byte)) : option (list byte) :=
  match ps with
  | [] => None
  | p :: ps =>
      match last_identity ps with
      | Some v => Some v
      | None =>
          if (p.1 =? ZMTP_PROPERTY_IDENTITY)%string then Some p.2 else None
      end
  end.

(** A range that is the beginning of a property, cut right after its name,
    or right after its value length when the value is not empty. *)
Definition cut_header (tail : list byte) : Prop :=
  exists p,
    wire_bounded p
    /\ ((0 < String.length p.1)%nat
        /\ tail = take (1 + String.length p.1) (wire_property p)
        \/ (0 < length p.2)%nat
           /\ tail = take (5 + String.length p.1) (wire_property p)).

(** A mechanism with the given local role and nothing else configured. *)
Definition role_mechanism (socket_type : Z) : mechanism_t :=
  mechanism_init (Options.mk socket_type [] false).

(** * Properties *)

Local Existing Instance default_mechanism.

(** ** Bytes and 32-bit big-endian integers *)

Lemma byte_to_Z_range (b : byte) : 0 <= byte_to_Z b <= 255.
Proof.
  unfold byte_to_Z. pose proof (Byte.to_N_bounded b). lia.
Qed.

Lemma byte_to_of_Z (z : Z) : 0 <= z <= 255 -> byte_to_Z (byte_of_Z z) = z.
Proof.
  intros Hz. unfold byte_to_Z, byte_of_Z.
  rewrite Z.mod_small by lia.
  destruct (Byte.of_N (Z.to_N z)) as [b|] eqn:E.
  - apply Byte.to_of_N in E. rewrite E. lia.
  - apply Byte.of_N_None_iff in E. lia.
Qed.

Lemma byte_of_to_Z (b : byte) : byte_of_Z (byte_to_Z b) = b.
Proof.
  unfold byte_to_Z, byte_of_Z. pose proof (Byte.to_N_bounded b).
  rewrite Z.mod_small by lia. rewrite N2Z.id, Byte.of_to_N. reflexivity.
Qed.

Lemma land_255_range (z : Z) : 0 <= Z.land z 255 <= 255.
Proof.
  change (Z.land z 255) with (Z.land z (Z.ones 8)).
  rewrite Z.land_ones by lia.
  pose proof (Z.mod_pos_bound z (2 ^ 8)). lia.
Qed.

Lemma testbit_land_255 (z i : Z) :
  0 <= i -> Z.testbit (Z.land z 255) i = Z.testbit z i && (i <? 8).
Proof.
  intros Hi. rewrite Z.land_spec. change 255 with (Z.ones 8).
  rewrite Z.testbit_ones_nonneg by lia. reflexivity.
Qed.

Lemma get_uint32_bytes (b0 b1 b2 b3 : byte) (rest : list byte) :
  get_uint32 (b0 :: b1 :: b2 :: b3 :: rest)
  = Z.lor (Z.lor (Z.lor (Z.shiftl (byte_to_Z b0) 24)
                        (Z.shiftl (byte_to_Z b1) 16))
                 (Z.shiftl (byte_to_Z b2) 8)) (byte_to_Z b3).
Proof. reflexivity. Qed.

Lemma get_put_uint32 (v : Z) (rest : list byte) :
  0 <= v <= 2 ^ 32 - 1 -> get_uint32 (put_uint32 v ++ rest) = v.
Proof.
  intros Hv. unfold put_uint32. cbn [app]. rewrite get_uint32_bytes.
  rewrite !byte_to_of_Z by apply land_255_range.
  apply Z.bits_inj'. intros i Hi.
  rewrite !Z.lor_spec, !Z.shiftl_spec by lia.
  assert (Hhigh : 32 <= i -> Z.testbit v i = false).
  { intros Hge. destruct (Z.eq_dec v 0) as [->|Hne].
    - apply Z.bits_0.
    - apply Z.bits_above_log2; [lia|].
      assert (Z.log2 v < 32) by (apply Z.log2_lt_pow2; lia). lia. }
  destruct (Z.ltb_spec i 8); [|destruct (Z.ltb_spec i 16);
    [|destruct (Z.ltb_spec i 24); [|destruct (Z.ltb_spec i 32)]]].
  - rewrite !(Z.testbit_neg_r _ (i - _)) by lia.
    rewrite testbit_land_255 by lia.
    destruct (Z.ltb_spec i 8); [|lia]. cbn. apply andb_true_r.
  - rewrite !(Z.testbit_neg_r _ (i - 24)), !(Z.testbit_neg_r _ (i - 16)) by lia.
    rewrite !testbit_land_255 by lia. rewrite Z.shiftr_spec by lia.
    replace (i - 8 + 8) with i by lia.
    destruct (Z.ltb_spec (i - 8) 8); [|lia].
    destruct (Z.ltb_spec i 8); [lia|].
    cbn. rewrite andb_true_r, andb_false_r, orb_false_r. reflexivity.
  - rewrite !(Z.testbit_neg_r _ (i - 24)) by lia.
    rewrite !testbit_land_255 by lia. rewrite !Z.shiftr_spec by lia.
    replace (i - 16 + 16) with i by lia.
    destruct (Z.ltb_spec (i - 16) 8); [|lia].
    destruct (Z.ltb_spec (i - 8) 8); [lia|].
    destruct (Z.ltb_spec i 8); [lia|].
    cbn. rewrite andb_true_r, !andb_false_r, !orb_false_r. reflexivity.
  - rewrite !testbit_land_255 by lia. rewrite !Z.shiftr_spec by lia.
    replace (i - 24 + 24) with i by lia.
    destruct (Z.ltb_spec (i - 24) 8); [|lia].
    destruct (Z.ltb_spec (i - 16) 8); [lia|].
    destruct (Z.ltb_spec (i - 8) 8); [lia|].
    destruct (Z.ltb_spec i 8); [lia|].
    cbn. rewrite andb_true_r, !andb_false_r, !orb_false_r. reflexivity.
  - rewrite !testbit_land_255 by lia. rewrite !Z.shiftr_spec by lia.
    destruct (Z.ltb_spec (i - 24) 8); [lia|].
    destruct (Z.ltb_spec (i - 16) 8); [lia|].
    destruct (Z.ltb_spec (i - 8) 8); [lia|].
    destruct (Z.ltb_spec i 8); [lia|].
    rewrite !andb_false_r. cbn. symmetry. apply Hhigh. lia.
Qed.

Lemma get_uint32_nonneg (l : list byte) : 0 <= get_uint32 l.
Proof.
  unfold get_uint32.
  repeat (apply Z.lor_nonneg; split);
    try apply Z.shiftl_nonneg; apply byte_to_Z_range.
Qed.

Lemma lor_bound (n a b : Z) :
  0 < n -> 0 <= a < 2 ^ n -> 0 <= b < 2 ^ n -> 0 <= Z.lor a b < 2 ^ n.
Proof.
  intros Hn Ha Hb.
  assert (Hlog : forall x, 0 <= x < 2 ^ n -> Z.log2 x < n).
  { intros x Hx. destruct (Z.eq_dec x 0) as [->|Hne]; [cbn; lia|].
    apply Z.log2_lt_pow2; lia. }
  assert (H0 : 0 <= Z.lor a b) by (apply Z.lor_nonneg; lia).
  split; [exact H0|].
  destruct (Z.eq_dec (Z.lor a b) 0) as [->|Hne]; [lia|].
  apply Z.log2_lt_pow2; [lia|].
  rewrite Z.log2_lor by lia.
  pose proof (Hlog a Ha). pose proof (Hlog b Hb). lia.
Qed.

Lemma get_uint32_range (l : list byte) : 0 <= get_uint32 l <= 2 ^ 32 - 1.
Proof.
  unfold get_uint32.
  pose proof (byte_to_Z_range (nth 0 l x00)).
  pose proof (byte_to_Z_range (nth 1 l x00)).
  pose proof (byte_to_Z_range (nth 2 l x00)).
  pose proof (byte_to_Z_range (nth 3 l x00)).
  enough (0 <= Z.lor (Z.lor (Z.lor (Z.shiftl (byte_to_Z (nth 0 l x00)) 24)
                                   (Z.shiftl (byte_to_Z (nth 1 l x00)) 16))
                            (Z.shiftl (byte_to_Z (nth 2 l x00)) 8))
                     (byte_to_Z (nth 3 l x00)) < 2 ^ 32) by lia.
  repeat apply lor_bound; try lia; rewrite Z.shiftl_mul_pow2 by lia; lia.
Qed.

(** ** Strings and byte lists *)

Lemma length_list_byte_of_string (s : string) :
  length (list_byte_of_string s) = String.length s.
Proof.
  unfold list_byte_of_string. rewrite length_map.
  induction s as [|c s IH]; cbn; [reflexivity | now rewrite IH].
Qed.

Lemma length_string_of_list_byte (l : list byte) :
  String.length (string_of_list_byte l) = length l.
Proof.
  unfold string_of_list_byte.
  induction l as [|b l IH]; cbn; [reflexivity | now rewrite IH].
Qed.

Lemma length_wire_property (p : string * list byte) :
  Z.of_nat (length (wire_property p))
  = 1 + Z.of_nat (String.length p.1) + 4 + Z.of_nat (length p.2).
Proof.
  unfold wire_property. cbn [length]. rewrite !length_app.
  rewrite length_list_byte_of_string. cbn [length put_uint32]. lia.
Qed.

(** ** One run of the loop body *)

Section Loop.
Context `{Mechanism}.

Lemma loop_body_decreases zap_flag ptr_ bytes_left m ptr' bytes_left' m' :
  loop_body zap_flag ptr_ bytes_left m = Continue ptr' bytes_left' m' ->
  0 <= bytes_left' <= bytes_left - 5.
Proof.
  unfold loop_body. cbv zeta.
  pose proof (byte_to_Z_range (nth 0 ptr_ x00)) as Hn.
  set (name_length := byte_to_Z (nth 0 ptr_ x00)) in *.
  pose proof (get_uint32_nonneg (drop (Z.to_nat name_length) (drop 1 ptr_))) as Hv.
  set (value_length := get_uint32 _) in *.
  destruct (Z.ltb_spec (bytes_left - 1) name_length); [discriminate|].
  destruct (Z.ltb_spec (bytes_left - 1 - name_length) 4); [discriminate|].
  destruct (Z.ltb_spec (bytes_left - 1 - name_length - 4) value_length);
    [discriminate|].
  destruct (handle_property _ _ _); [|discriminate].
  intros [= <- <- <-]. lia.
Qed.

(** Started with the counter at the length of the range, the body leaves it
    at the length of what is left of the range. *)
Lemma loop_body_cursor zap_flag ptr_ m ptr' bytes_left' m' :
  loop_body zap_flag ptr_ (Z.of_nat (length ptr_)) m
    = Continue ptr' bytes_left' m' ->
  bytes_left' = Z.of_nat (length ptr').
Proof.
  unfold loop_body. cbv zeta.
  pose proof (byte_to_Z_range (nth 0 ptr_ x00)) as Hn.
  set (name_length := byte_to_Z (nth 0 ptr_ x00)) in *.
  pose proof (get_uint32_nonneg (drop (Z.to_nat name_length) (drop 1 ptr_))) as Hv.
  set (value_length := get_uint32 _) in *.
  destruct (Z.ltb_spec (Z.of_nat (length ptr_) - 1) name_length);
    [discriminate|].
  destruct (Z.ltb_spec (Z.of_nat (length ptr_) - 1 - name_length) 4);
    [discriminate|].
  destruct (Z.ltb_spec (Z.of_nat (length ptr_) - 1 - name_length - 4)
              value_length); [discriminate|].
  destruct (handle_property _ _ _); [|discriminate].
  intros [= <- <- <-]. rewrite !length_drop. lia.
Qed.

(** The body on a range that starts with a complete property. *)
Lemma loop_body_wire zap_flag p rest m :
  wire_bounded p ->
  loop_body zap_flag (wire_property p ++ rest)
            (Z.of_nat (length (wire_property p ++ rest))) m
  = match handle_property p.1 p.2 m with
    | inr m' => Return (-1) m'
    | inl m' =>
        Continue rest (Z.of_nat (length rest))
                 (record_property zap_flag p.1 p.2 m')
    end.
Proof.
  destruct p as [name value]. intros [Hname Hvalue]. cbn [fst snd] in *.
  unfold loop_body, wire_property. cbv zeta. cbn [fst snd].
  rewrite <- !app_comm_cons. cbn [nth drop].
  rewrite byte_to_of_Z by lia. rewrite Nat2Z.id.
  rewrite <- !app_assoc.
  rewrite <- (length_list_byte_of_string name).
  rewrite !drop_0.
  rewrite take_app_length, drop_app_length.
  rewrite string_of_list_byte_of_string.
  rewrite get_put_uint32 by lia.
  change (drop 4 (put_uint32 ?v ++ ?k)) with k.
  rewrite Nat2Z.id, take_app_length, drop_app_length.
  cbn [length]. rewrite !length_app. cbn [length put_uint32].
  repeat match goal with
         | |- context [Z.ltb ?a ?b] => destruct (Z.ltb_spec a b); [lia|]
         end.
  destruct (handle_property name value m); [|reflexivity].
  f_equal. lia.
Qed.

End Loop.

(** ** The loop and its fuel *)

Section Parse.
Context `{Mechanism}.

(** Fuel enough for the counter: any two such amounts give the same run. *)
Lemma while_loop_fuel fuel1 fuel2 zap_flag ptr_ bytes_left m :
  bytes_left <= 1 + 5 * Z.of_nat fuel1 ->
  bytes_left <= 1 + 5 * Z.of_nat fuel2 ->
  while_loop fuel1 zap_flag ptr_ bytes_left m
  = while_loop fuel2 zap_flag ptr_ bytes_left m.
Proof.
  revert fuel2 ptr_ bytes_left m.
  induction fuel1 as [|fuel1 IH]; intros fuel2 ptr_ bytes_left m H1 H2;
    destruct fuel2 as [|fuel2]; cbn [while_loop];
    destruct (Z.ltb_spec 1 bytes_left); try reflexivity; try lia.
  destruct (loop_body zap_flag ptr_ bytes_left m) as [p b m'| |] eqn:E;
    try reflexivity.
  apply loop_body_decreases in E. apply IH; lia.
Qed.

Lemma while_loop_total fuel zap_flag ptr_ bytes_left m :
  bytes_left <= 1 + 5 * Z.of_nat fuel ->
  exists e, while_loop fuel zap_flag ptr_ bytes_left m = Some e.
Proof.
  revert ptr_ bytes_left m.
  induction fuel as [|fuel IH]; intros ptr_ bytes_left m Hf;
    cbn [while_loop]; destruct (Z.ltb_spec 1 bytes_left); eauto; try lia.
  destruct (loop_body zap_flag ptr_ bytes_left m) as [p b m'| |] eqn:E; eauto.
  apply loop_body_decreases in E. apply IH; lia.
Qed.

(** [parse_metadata], one iteration at a time. *)
Lemma parse_metadata_short ptr_ zap_flag m :
  (length ptr_ <= 1)%nat ->
  parse_metadata ptr_ zap_flag m
  = if 0 <? Z.of_nat (length ptr_) then Some (-1, set_errno EPROTO m)
    else Some (0, m).
Proof.
  intros Hlen. unfold parse_metadata.
  destruct (length ptr_) as [|n]; cbn [while_loop].
  - reflexivity.
  - destruct (Z.ltb_spec 1 (Z.of_nat (S n))); [lia|]. reflexivity.
Qed.

Lemma parse_metadata_step ptr_ zap_flag m :
  (1 < length ptr_)%nat ->
  parse_metadata ptr_ zap_flag m
  = match loop_body zap_flag ptr_ (Z.of_nat (length ptr_)) m with
    | Continue ptr' _ m' => parse_metadata ptr' zap_flag m'
    | Break bytes_left m' =>
        if 0 <? bytes_left then Some (-1, set_errno EPROTO m')
        else Some (0, m')
    | Return rc m' => Some (rc, m')
    end.
Proof.
  intros Hlen. unfold parse_metadata at 1.
  destruct (length ptr_) as [|n] eqn:En; [lia|]. cbn [while_loop].
  destruct (Z.ltb_spec 1 (Z.of_nat (S n))); [|lia].
  rewrite <- En.
  destruct (loop_body zap_flag ptr_ (Z.of_nat (length ptr_)) m)
    as [ptr' b m'| |] eqn:E; try reflexivity.
  pose proof (loop_body_decreases _ _ _ _ _ _ _ E) as Hd.
  apply loop_body_cursor in E. subst b. unfold parse_metadata.
  rewrite (while_loop_fuel n (length ptr')) by lia. reflexivity.
Qed.

(** The parser on a range that starts with a complete property. *)
Lemma parse_metadata_cons p rest zap_flag m :
  wire_bounded p ->
  parse_metadata (wire_property p ++ rest) zap_flag m
  = match handle_property p.1 p.2 m with
    | inr m' => Some (-1, m')
    | inl m' => parse_metadata rest zap_flag (record_property zap_flag p.1 p.2 m')
    end.
Proof.
  intros Hp. rewrite parse_metadata_step.
  - rewrite loop_body_wire by exact Hp.
    destruct (handle_property p.1 p.2 m); reflexivity.
  - unfold wire_property. cbn [app length]. rewrite !length_app.
    cbn [length put_uint32]. lia.
Qed.

(** The parser on a range that starts with a list of complete properties. *)
Lemma parse_metadata_app ps rest zap_flag m :
  Forall wire_bounded ps ->
  parse_metadata (wire_properties ps ++ rest) zap_flag m
  = match dispatch_all zap_flag ps m with
    | inl m' => parse_metadata rest zap_flag m'
    | inr m' => Some (-1, m')
    end.
Proof.
  intros Hps. revert m.
  induction Hps as [|p ps Hp Hps IH]; intros m; [reflexivity|].
  unfold wire_properties in *. cbn [map concat dispatch_all].
  rewrite <- app_assoc, parse_metadata_cons by exact Hp.
  destruct (handle_property p.1 p.2 m); [apply IH | reflexivity].
Qed.

End Parse.

(** ** Ranges that end inside a property *)

Section Truncated.
Context `{Mechanism}.

Lemma loop_body_break_name zap_flag ptr_ bytes_left m :
  bytes_left - 1 < byte_to_Z (nth 0 ptr_ x00) ->
  loop_body zap_flag ptr_ bytes_left m = Break (bytes_left - 1) m.
Proof.
  intros Hlt. unfold loop_body. cbv zeta.
  destruct (Z.ltb_spec (bytes_left - 1) (byte_to_Z (nth 0 ptr_ x00)));
    [reflexivity | lia].
Qed.

Lemma loop_body_break_length zap_flag ptr_ bytes_left m :
  byte_to_Z (nth 0 ptr_ x00) <= bytes_left - 1 ->
  bytes_left - 1 - byte_to_Z (nth 0 ptr_ x00) < 4 ->
  loop_body zap_flag ptr_ bytes_left m
  = Break (bytes_left - 1 - byte_to_Z (nth 0 ptr_ x00)) m.
Proof.
  intros Hge Hlt. unfold loop_body. cbv zeta.
  destruct (Z.ltb_spec (bytes_left - 1) (byte_to_Z (nth 0 ptr_ x00)));
    [lia|].
  destruct (Z.ltb_spec (bytes_left - 1 - byte_to_Z (nth 0 ptr_ x00)) 4);
    [reflexivity | lia].
Qed.

Lemma loop_body_break_value zap_flag ptr_ bytes_left m :
  let name_length := byte_to_Z (nth 0 ptr_ x00) in
  let value_length := get_uint32 (drop (Z.to_nat name_length) (drop 1 ptr_)) in
  4 <= bytes_left - 1 - name_length ->
  bytes_left - 1 - name_length - 4 < value_length ->
  loop_body zap_flag ptr_ bytes_left m
  = Break (bytes_left - 1 - name_length - 4) m.
Proof.
  intros name_length value_length Hge Hlt. unfold loop_body. cbv zeta.
  fold name_length. fold value_length.
  pose proof (byte_to_Z_range (nth 0 ptr_ x00)).
  destruct (Z.ltb_spec (bytes_left - 1) name_length); [lia|].
  destruct (Z.ltb_spec (bytes_left - 1 - name_length) 4); [lia|].
  destruct (Z.ltb_spec (bytes_left - 1 - name_length - 4) value_length);
    [reflexivity | lia].
Qed.

Lemma get_uint32_take (n : nat) (l : list byte) :
  (4 <= n)%nat -> get_uint32 (take n l) = get_uint32 l.
Proof.
  intros Hn. do 4 (destruct n as [|n]; [lia|]).
  destruct l as [|a [|b [|c [|d l]]]]; reflexivity.
Qed.

(** A range that is the first [k] bytes of a property, [k] neither at the end
    of the name nor at the end of the value length. *)
Lemma parse_metadata_truncated p k zap_flag m :
  wire_bounded p ->
  (0 < k < length (wire_property p))%nat ->
  (k = 1 + String.length p.1 -> k = 1)%nat ->
  (k <> 5 + String.length p.1)%nat ->
  parse_metadata (take k (wire_property p)) zap_flag m
  = Some (-1, set_errno EPROTO m).
Proof.
  destruct p as [name value]. intros [Hname Hvalue] Hk Hk1 Hk5.
  cbn [fst snd] in *.
  assert (Hlen : length (take k (wire_property (name, value))) = k)
    by (rewrite length_take; lia).
  destruct (Nat.eq_dec k 1%nat) as [->|Hne].
  { rewrite parse_metadata_short by lia. rewrite Hlen. reflexivity. }
  rewrite parse_metadata_step by lia. rewrite Hlen.
  revert Hk. unfold wire_property. cbn [fst snd length].
  rewrite !length_app, length_list_byte_of_string. cbn [length put_uint32].
  intros Hk.
  destruct k as [|k]; [lia|]. cbn [take].
  set (t := take k _).
  assert (Hhd : byte_to_Z (nth 0 (byte_of_Z (Z.of_nat (String.length name)) :: t) x00)
                = Z.of_nat (String.length name))
    by (cbn [nth]; apply byte_to_of_Z; lia).
  destruct (Nat.lt_ge_cases k (String.length name)) as [Hlt|Hge].
  { rewrite loop_body_break_name by lia.
    destruct (Z.ltb_spec 0 (Z.of_nat (S k) - 1)); [reflexivity | lia]. }
  destruct (Nat.lt_ge_cases (k - String.length name) 4%nat) as [Hlt4|Hge4].
  { rewrite loop_body_break_length by lia. rewrite Hhd.
    destruct (Z.ltb_spec 0 (Z.of_nat (S k) - 1 - Z.of_nat (String.length name)));
      [reflexivity | lia]. }
  assert (Hv : get_uint32
                 (drop (Z.to_nat (byte_to_Z
                    (nth 0 (byte_of_Z (Z.of_nat (String.length name)) :: t) x00)))
                    (drop 1 (byte_of_Z (Z.of_nat (String.length name)) :: t)))
               = Z.of_nat (length value)).
  { rewrite Hhd, Nat2Z.id. cbn [drop]. rewrite drop_0. subst t.
    rewrite <- (length_list_byte_of_string name) at 1.
    rewrite take_app_ge by (rewrite length_list_byte_of_string; lia).
    rewrite drop_app_length, get_uint32_take
      by (rewrite length_list_byte_of_string; lia).
    apply get_put_uint32. lia. }
  rewrite loop_body_break_value; rewrite ?Hv, ?Hhd; try lia.
  destruct (Z.ltb_spec 0 (Z.of_nat (S k) - 1 - Z.of_nat (String.length name) - 4));
    [reflexivity | lia].
Qed.

(** The two cuts the lemma above leaves out: a range that ends with the name
    of a property, or with its value length, is accepted, and the property
    that is cut is dropped. *)
Lemma parse_metadata_cut_after_name p zap_flag m :
  wire_bounded p ->
  (0 < String.length p.1)%nat ->
  parse_metadata (take (1 + String.length p.1) (wire_property p)) zap_flag m
  = Some (0, m).
Proof.
  destruct p as [name value]. intros [Hname Hvalue] Hpos. cbn [fst snd] in *.
  assert (Hlen : length (take (1 + String.length name)
                           (wire_property (name, value)))
                 = (1 + String.length name)%nat).
  { rewrite length_take. pose proof (length_wire_property (name, value)) as E.
    cbn [fst snd] in E. lia. }
  rewrite parse_metadata_step by lia. rewrite Hlen.
  unfold wire_property. cbn [fst snd]. cbn [Nat.add take].
  rewrite loop_body_break_length; cbn [nth]; rewrite ?byte_to_of_Z; try lia.
  destruct (Z.ltb_spec 0 (Z.of_nat (S (String.length name)) - 1
                          - Z.of_nat (String.length name)));
    [lia | reflexivity].
Qed.

Lemma parse_metadata_cut_after_length p zap_flag m :
  wire_bounded p ->
  (0 < length p.2)%nat ->
  parse_metadata (take (5 + String.length p.1) (wire_property p)) zap_flag m
  = Some (0, m).
Proof.
  destruct p as [name value]. intros [Hname Hvalue] Hpos. cbn [fst snd] in *.
  assert (Hlen : length (take (5 + String.length name)
                           (wire_property (name, value)))
                 = (5 + String.length name)%nat).
  { rewrite length_take. pose proof (length_wire_property (name, value)) as E.
    cbn [fst snd] in E. lia. }
  rewrite parse_metadata_step by lia. rewrite Hlen.
  unfold wire_property. cbn [fst snd]. cbn [Nat.add take].
  set (t := take _ _).
  assert (Hhd : byte_to_Z (nth 0 (byte_of_Z (Z.of_nat (String.length name)) :: t) x00)
                = Z.of_nat (String.length name))
    by (cbn [nth]; apply byte_to_of_Z; lia).
  assert (Hv : get_uint32
                 (drop (Z.to_nat (byte_to_Z
                    (nth 0 (byte_of_Z (Z.of_nat (String.length name)) :: t) x00)))
                    (drop 1 (byte_of_Z (Z.of_nat (String.length name)) :: t)))
               = Z.of_nat (length value)).
  { rewrite Hhd, Nat2Z.id. cbn [drop]. rewrite drop_0. subst t.
    rewrite <- (length_list_byte_of_string name) at 1.
    rewrite take_app_ge by (rewrite length_list_byte_of_string; lia).
    rewrite drop_app_length, get_uint32_take
      by (rewrite length_list_byte_of_string; lia).
    apply get_put_uint32. lia. }
  rewrite loop_body_break_value; rewrite ?Hv, ?Hhd; try lia.
  destruct (Z.ltb_spec 0 (Z.of_nat (S (S (S (S (S (String.length name))))))
                          - 1 - Z.of_nat (String.length name) - 4));
    [lia | reflexivity].
Qed.

End Truncated.

(** ** The encoder *)

Lemma memcpy_at (pre rest src : list byte) (n : nat) :
  n = length pre ->
  memcpy (pre ++ rest) n src = (pre ++ src) ++ drop (length src) rest.
Proof.
  intros ->. unfold memcpy.
  rewrite take_app_length, drop_app_add, app_assoc. reflexivity.
Qed.

Lemma size_t_wrap_small (z : Z) : 0 <= z < 2 ^ 64 -> size_t_wrap z = z.
Proof. intros Hz. unfold size_t_wrap, size_t_bits. apply Z.mod_small. lia. Qed.

Lemma property_len_small (n v : Z) :
  0 <= n <= 255 -> 0 <= v <= 2 ^ 32 - 1 -> property_len n v = 1 + n + 4 + v.
Proof. intros Hn Hv. unfold property_len. apply size_t_wrap_small. lia. Qed.

(** Within its contract the encoder succeeds: it overwrites the first
    [1 + |name| + 4 + |value|] bytes of the region with the property and
    leaves the rest of the region as it was. *)
Lemma add_property_spec (ptr : list byte) (name : string) (value : list byte) :
  let total := 1 + Z.of_nat (String.length name) + 4 + Z.of_nat (length value) in
  Z.of_nat (String.length name) <= 255 ->
  Z.of_nat (length value) <= 2 ^ 31 - 1 ->
  total <= Z.of_nat (length ptr) ->
  add_property ptr name value
  = Some (wire_property (name, value) ++ drop (Z.to_nat total) ptr, total).
Proof.
  intros total Hname Hvalue Hcap. unfold add_property, name_len.
  destruct (Z.leb_spec (Z.of_nat (String.length name)) 255); [|lia].
  cbn [zmq_assert mbind option_bind]. cbv zeta.
  rewrite property_len_small by lia. fold total.
  destruct (Z.leb_spec total (Z.of_nat (length ptr))); [|lia].
  destruct (Z.leb_spec (Z.of_nat (length value)) 2147483647); [|lia].
  cbn [zmq_assert mbind option_bind]. f_equal. f_equal.
  rewrite Nat2Z.id.
  rewrite (memcpy_at [] ptr) by reflexivity.
  rewrite memcpy_at by reflexivity.
  rewrite memcpy_at
    by (rewrite length_app, length_list_byte_of_string; reflexivity).
  rewrite memcpy_at
    by (rewrite !length_app, length_list_byte_of_string; cbn; lia).
  rewrite !drop_drop. unfold wire_property. cbn [fst snd app].
  rewrite <- !app_assoc. cbn [app]. do 4 f_equal.
  rewrite length_list_byte_of_string. cbn [length put_uint32].
  f_equal. subst total. lia.
Qed.

(** Outside the bounds of a property the encoder aborts. *)
Lemma add_property_abort (ptr : list byte) (name : string) (value : list byte) :
  255 < Z.of_nat (String.length name) \/ 2 ^ 31 - 1 < Z.of_nat (length value) ->
  add_property ptr name value = None.
Proof.
  intros Hout. unfold add_property, name_len.
  destruct (Z.leb_spec (Z.of_nat (String.length name)) 255);
    [|reflexivity].
  cbn [zmq_assert mbind option_bind]. cbv zeta.
  destruct (_ <=? Z.of_nat (length ptr)); [|reflexivity].
  cbn [zmq_assert mbind option_bind].
  destruct (Z.leb_spec (Z.of_nat (length value)) 2147483647);
    [lia | reflexivity].
Qed.

(** ** Termination of the parser *)

(** C10: [parse_metadata] returns for every byte range: a run of the loop
    body that does not leave the loop lowers the remaining-byte counter by
    at least 5 and keeps it non-negative, so any fuel of at least a fifth of
    the counter runs the loop to its end, and the function has a result. *)
Theorem parse_metadata_terminates `{Mechanism}
    (ptr_ : list byte) (zap_flag : bool) (m : mechanism_t) :
  (exists r, parse_metadata ptr_ zap_flag m = Some r)
  /\ (forall fuel bytes_left,
        bytes_left <= 1 + 5 * Z.of_nat fuel ->
        exists e, while_loop fuel zap_flag ptr_ bytes_left m = Some e)
  /\ (forall bytes_left ptr' bytes_left' m',
        loop_body zap_flag ptr_ bytes_left m = Continue ptr' bytes_left' m' ->
        0 <= bytes_left' <= bytes_left - 5).
Proof.
  split; [|split].
  - unfold parse_metadata.
    destruct (while_loop_total (length ptr_) zap_flag ptr_
                (Z.of_nat (length ptr_)) m) as [e He]; [lia|].
    rewrite He. destruct e as [b m'|rc m']; [|eauto].
    destruct (0 <? b); eauto.
  - intros fuel bytes_left Hf. apply while_loop_total. exact Hf.
  - intros bytes_left ptr' bytes_left' m'. apply loop_body_decreases.
Qed.

Lemma parse_metadata_terminates_witness :
  (loop_body false (wire_property ("a", [x62])) 7 req_mechanism
   = Continue [] 0 (record_property false "a" [x62] req_mechanism)
   /\ 0 <= 0 <= 7 - 5)
  /\ (7 <= 1 + 5 * Z.of_nat 2 /\
      exists e, while_loop 2 false (wire_property ("a", [x62])) 7 req_mechanism
                = Some e).
Proof.
  assert (E : loop_body false (wire_property ("a", [x62])) 7 req_mechanism
              = Continue [] 0 (record_property false "a" [x62] req_mechanism))
    by reflexivity.
  assert (F : 7 <= 1 + 5 * Z.of_nat 2) by (cbn; lia).
  pose proof (parse_metadata_terminates
                (wire_property ("a", [x62])) false req_mechanism)
    as (_ & Hfuel & Hstep).
  split; split.
  - exact E.
  - exact (Hstep 7 [] 0 _ E).
  - exact F.
  - exact (Hfuel 2%nat 7 F).
Defined.

(** ** The compatibility matrix *)

Ltac case_socket_type t :=
  repeat match goal with
         | |- context [Z.eqb t ?c] =>
             destruct (Z.eqb_spec t c) as [?|?];
             [subst t; cbn; rewrite ?orb_false_r, ?orb_assoc; reflexivity|]
         end.

Lemma check_socket_type_is_compatible (m : mechanism_t) (type_ : string) :
  check_socket_type m type_ = is_compatible (Options.type (options m)) type_.
Proof.
  unfold check_socket_type, is_compatible, table_row, compatibility_table.
  cbv zeta. generalize (Options.type (options m)) as t. intros t.
  unfold ZMQ_PAIR, ZMQ_PUB, ZMQ_SUB, ZMQ_REQ, ZMQ_REP, ZMQ_DEALER, ZMQ_ROUTER,
    ZMQ_PULL, ZMQ_PUSH, ZMQ_XPUB, ZMQ_XSUB, ZMQ_SERVER, ZMQ_CLIENT, ZMQ_RADIO,
    ZMQ_DISH, ZMQ_GATHER, ZMQ_SCATTER, ZMQ_DGRAM.
  cbn [find fst snd].
  case_socket_type t. reflexivity.
Qed.

(** C2: [check_socket_type] is the compatibility table of the specification:
    it agrees with [is_compatible] for every local role and peer role name,
    so it is false for a local role without a row, such as STREAM; and REQ
    accepts "REP" but not "PUB", PAIR accepts "PAIR", DGRAM accepts "DGRAM". *)
Theorem check_socket_type_matrix (m : mechanism_t) (type_ : string) :
  check_socket_type m type_ = is_compatible (Options.type (options m)) type_
  /\ (table_row (Options.type (options m)) = None ->
      check_socket_type m type_ = false)
  /\ (Options.type (options m) = ZMQ_STREAM -> check_socket_type m type_ = false)
  /\ (Options.type (options m) = ZMQ_REQ ->
      check_socket_type m "REP" = true /\ check_socket_type m "PUB" = false)
  /\ (Options.type (options m) = ZMQ_PAIR -> check_socket_type m "PAIR" = true)
  /\ (Options.type (options m) = ZMQ_DGRAM -> check_socket_type m "DGRAM" = true).
Proof.
  split; [apply check_socket_type_is_compatible|].
  rewrite !check_socket_type_is_compatible. unfold is_compatible.
  split; [intros ->; reflexivity|].
  split; [intros ->; reflexivity|].
  split; [intros ->; split; reflexivity|].
  split; intros ->; reflexivity.
Qed.

Lemma check_socket_type_matrix_witness :
  check_socket_type (mechanism_init (Options.mk ZMQ_STREAM [] false)) "STREAM"
  = false
  /\ check_socket_type req_mechanism "REP" = true
  /\ check_socket_type req_mechanism "PUB" = false
  /\ check_socket_type (mechanism_init (Options.mk ZMQ_PAIR [] false)) "PAIR"
     = true
  /\ check_socket_type (mechanism_init (Options.mk ZMQ_DGRAM [] false)) "DGRAM"
     = true.
Proof.
  pose proof (check_socket_type_matrix
                (mechanism_init (Options.mk ZMQ_STREAM [] false)) "STREAM")
    as (_ & Hrow & Hstream & _).
  pose proof (check_socket_type_matrix req_mechanism "") as (_ & _ & _ & Hreq & _).
  pose proof (check_socket_type_matrix
                (mechanism_init (Options.mk ZMQ_PAIR [] false)) "")
    as (_ & _ & _ & _ & Hpair & _).
  pose proof (check_socket_type_matrix
                (mechanism_init (Options.mk ZMQ_DGRAM [] false)) "")
    as (_ & _ & _ & _ & _ & Hdgram).
  split; [exact (Hrow eq_refl)|].
  split; [exact (proj1 (Hreq eq_refl))|].
  split; [exact (proj2 (Hreq eq_refl))|].
  split; [exact (Hpair eq_refl) | exact (Hdgram eq_refl)].
Defined.

(** ** Encoding, then decoding *)

Lemma parse_metadata_nil `{Mechanism} zap_flag m :
  parse_metadata [] zap_flag m = Some (0, m).
Proof. reflexivity. Qed.

Lemma parse_metadata_single `{Mechanism} p zap_flag m :
  wire_bounded p ->
  parse_metadata (wire_property p) zap_flag m
  = match handle_property p.1 p.2 m with
    | inl m' => Some (0, record_property zap_flag p.1 p.2 m')
    | inr m' => Some (-1, m')
    end.
Proof.
  intros Hp. rewrite <- (app_nil_r (wire_property p)).
  rewrite parse_metadata_cons by exact Hp.
  destruct (handle_property p.1 p.2 m); reflexivity.
Qed.




(** ** The basic property set *)

Lemma socket_type_string_valid (t : Z) :
  0 <= t <= 18 ->
  exists name, socket_type_string t = Some name
               /\ In name socket_type_names.
Proof.
  intros Ht. unfold socket_type_string.
  destruct (Z.leb_spec 0 t); [|lia]. destruct (Z.leb_spec t 18); [|lia].
  cbn [andb zmq_assert mbind option_bind].
  eexists. split; [reflexivity|].
  apply nth_In. cbn [length socket_type_names]. lia.
Qed.

Lemma socket_type_name_short (name : string) :
  In name socket_type_names -> Z.of_nat (String.length name) <= 7.
Proof.
  unfold socket_type_names. cbn [In].
  intros Hin. repeat (destruct Hin as [<-|Hin]; [cbn; lia|]). destruct Hin.
Qed.

Lemma name_len_socket_type : name_len ZMTP_PROPERTY_SOCKET_TYPE = Some 11.
Proof. reflexivity. Qed.

Lemma name_len_identity : name_len ZMTP_PROPERTY_IDENTITY = Some 8.
Proof. reflexivity. Qed.

Lemma has_identity_property_iff (o : Options.t) :
  has_identity_property o = true
  <-> Options.type o = ZMQ_REQ \/ Options.type o = ZMQ_DEALER
      \/ Options.type o = ZMQ_ROUTER.
Proof.
  unfold has_identity_property.
  rewrite !orb_true_iff, !Z.eqb_eq. tauto.
Qed.

(** C9: for a valid local role and a routing identifier of at most 255
    bytes, [add_basic_properties] on a region with room for them writes the
    "Socket-Type" property (value: the name of the local role) first, then
    the "Identity" property (value: the configured routing identifier)
    exactly when the local role is REQ, DEALER or ROUTER; it writes nothing
    else, and the length it returns is [basic_properties_len ()]. *)
Theorem add_basic_properties_layout (buf : list byte) (m : mechanism_t) :
  0 <= Options.type (options m) <= 18 ->
  Options.routing_id_size (options m) <= 255 ->
  exists socket_type n,
    let bytes :=
      wire_property (ZMTP_PROPERTY_SOCKET_TYPE, list_byte_of_string socket_type)
      ++ (if has_identity_property (options m)
          then wire_property (ZMTP_PROPERTY_IDENTITY,
                              Options.routing_id (options m))
          else []) in
    socket_type_string (Options.type (options m)) = Some socket_type
    /\ (has_identity_property (options m) = true
        <-> Options.type (options m) = ZMQ_REQ
            \/ Options.type (options m) = ZMQ_DEALER
            \/ Options.type (options m) = ZMQ_ROUTER)
    /\ basic_properties_len m = Some n
    /\ n = Z.of_nat (length bytes)
    /\ (n <= Z.of_nat (length buf) ->
        add_basic_properties buf m
        = Some (bytes ++ drop (Z.to_nat n) buf, n)).
Proof.
  intros Htype Hrid. unfold Options.routing_id_size in Hrid.
  destruct (socket_type_string_valid _ Htype) as (name & Hs & Hin).
  apply socket_type_name_short in Hin.
  set (rid := Options.routing_id (options m)) in *.
  set (w1 := wire_property (ZMTP_PROPERTY_SOCKET_TYPE, list_byte_of_string name)).
  set (w2 := wire_property (ZMTP_PROPERTY_IDENTITY, rid)).
  assert (Hw1 : Z.of_nat (length w1) = 16 + Z.of_nat (String.length name)).
  { subst w1. rewrite length_wire_property. cbn [fst snd].
    rewrite length_list_byte_of_string. cbn. lia. }
  assert (Hw2 : Z.of_nat (length w2) = 13 + Z.of_nat (length rid)).
  { subst w2. rewrite length_wire_property. cbn. lia. }
  exists name,
    (Z.of_nat (length (w1 ++ (if has_identity_property (options m)
                              then w2 else [])))).
  cbv zeta. fold w1 w2 rid.
  split; [exact Hs|]. split; [apply has_identity_property_iff|]. split.
  { unfold basic_properties_len. rewrite Hs.
    cbn [mbind option_bind]. unfold mechanism_property_len.
    rewrite name_len_socket_type.
    cbn [mbind option_bind]. rewrite property_len_small by lia.
    unfold Options.routing_id_size. fold rid. rewrite length_app.
    destruct (has_identity_property (options m)).
    - rewrite name_len_identity.
      cbn [mbind option_bind]. rewrite property_len_small by lia.
      rewrite size_t_wrap_small by lia. f_equal. lia.
    - cbn [mbind option_bind length]. rewrite size_t_wrap_small by lia.
      f_equal. lia. }
  split; [reflexivity|].
  intros Hcap. rewrite length_app in Hcap.
  unfold add_basic_properties. rewrite Hs. cbn [mbind option_bind].
  assert (Hw : Z.of_nat (length (if has_identity_property (options m)
                                 then w2 else [])) >= 0) by lia.
  rewrite add_property_spec; cycle 1.
  { cbn. lia. }
  { rewrite length_list_byte_of_string. lia. }
  { rewrite length_list_byte_of_string. cbn. lia. }
  cbn [mbind option_bind fst snd]. fold w1.
  rewrite length_list_byte_of_string.
  change (String.length ZMTP_PROPERTY_SOCKET_TYPE) with 11%nat.
  replace (Z.to_nat (1 + Z.of_nat 11 + 4 + Z.of_nat (String.length name)))
    with (length w1) by lia.
  clear Hw. revert Hcap.
  destruct (has_identity_property (options m)); intros Hcap.
  - rewrite drop_app_length, take_app_length. fold rid.
    change (String.length ZMTP_PROPERTY_IDENTITY) with 8%nat in *.
    rewrite add_property_spec; cycle 1.
    { change (String.length ZMTP_PROPERTY_IDENTITY) with 8%nat. lia. }
    { lia. }
    { rewrite length_drop.
      change (String.length ZMTP_PROPERTY_IDENTITY) with 8%nat. lia. }
    cbn [mbind option_bind fst snd]. fold w2.
    change (String.length ZMTP_PROPERTY_IDENTITY) with 8%nat.
    replace (Z.to_nat (1 + Z.of_nat 8 + 4 + Z.of_nat (length rid)))
      with (length w2) by lia.
    rewrite drop_drop, <- app_assoc, length_app, Nat2Z.id.
    f_equal. f_equal. lia.
  - rewrite app_nil_r, Nat2Z.id. f_equal. f_equal. lia.
Qed.

Lemma add_basic_properties_layout_witness :
  (add_basic_properties (repeat x00 40) router_mechanism
   = Some (wire_property ("Socket-Type", list_byte_of_string "ROUTER")
           ++ wire_property ("Identity", [x61; x62; x63]) ++ [x00; x00], 38)
   /\ basic_properties_len router_mechanism = Some 38)
  /\ (add_basic_properties (repeat x00 20) push_mechanism
      = Some (wire_property ("Socket-Type", list_byte_of_string "PUSH"), 20)
      /\ basic_properties_len push_mechanism = Some 20).
Proof.
  split.
  - destruct (add_basic_properties_layout (repeat x00 40) router_mechanism)
      as (name & n & Hs & _ & Hlen & Hn & Hadd);
      [vm_compute; split; discriminate | vm_compute; discriminate |].
    cbv zeta in *. injection Hs as <-. vm_compute in Hn. subst n.
    split; [apply Hadd; vm_compute; discriminate | exact Hlen].
  - destruct (add_basic_properties_layout (repeat x00 20) push_mechanism)
      as (name & n & Hs & _ & Hlen & Hn & Hadd);
      [vm_compute; split; discriminate | vm_compute; discriminate |].
    cbv zeta in *. injection Hs as <-. vm_compute in Hn. subst n.
    split; [apply Hadd; vm_compute; discriminate | exact Hlen].
Defined.

(** ** Invariants of the parser *)

Section Invariants.
Context `{Mechanism}.

(** A run of the loop body either breaks with the object untouched, or
    decodes a name of at most 255 bytes and a value of at most 2^32-1 bytes
    and dispatches them. *)
Lemma loop_body_inv zap_flag ptr_ bytes_left m :
  (exists bytes_left', loop_body zap_flag ptr_ bytes_left m = Break bytes_left' m)
  \/ (exists name value ptr' bytes_left',
        wire_bounded (name, value)
        /\ loop_body zap_flag ptr_ bytes_left m
           = match handle_property name value m with
             | inr m' => Return (-1) m'
             | inl m' =>
                 Continue ptr' bytes_left' (record_property zap_flag name value m')
             end).
Proof.
  unfold loop_body. cbv zeta.
  pose proof (byte_to_Z_range (nth 0 ptr_ x00)) as Hn.
  set (name_length := byte_to_Z (nth 0 ptr_ x00)) in *.
  pose proof (get_uint32_range (drop (Z.to_nat name_length) (drop 1 ptr_))) as Hv.
  set (value_length := get_uint32 _) in *.
  destruct (_ <? name_length); [left; eauto|].
  destruct (_ <? 4); [left; eauto|].
  destruct (_ <? value_length); [left; eauto|].
  right. do 4 eexists. split; [|reflexivity].
  split; cbn [fst snd].
  - rewrite length_string_of_list_byte, length_take. lia.
  - rewrite length_take. lia.
Qed.

(** A property of the object that every dispatch and the final error
    assignment keep holds after [parse_metadata] if it held before. *)
Lemma parse_metadata_invariant (P : mechanism_t -> Prop) zap_flag :
  (forall name value m,
     wire_bounded (name, value) -> P m ->
     match handle_property name value m with
     | inl m' => P (record_property zap_flag name value m')
     | inr m' => P m'
     end) ->
  (forall m, P m -> P (set_errno EPROTO m)) ->
  forall ptr_ m r,
    P m -> parse_metadata ptr_ zap_flag m = Some r -> P r.2.
Proof.
  intros Hstep Herr ptr_.
  remember (length ptr_) as n eqn:En. revert ptr_ En.
  induction n as [n IH] using lt_wf_ind. intros ptr_ En m r HP.
  destruct (Nat.le_gt_cases (length ptr_) 1) as [Hshort|Hlong].
  { rewrite parse_metadata_short by exact Hshort.
    destruct (0 <? _); intros [= <-]; cbn [snd]; auto. }
  rewrite parse_metadata_step by exact Hlong.
  destruct (loop_body_inv zap_flag ptr_ (Z.of_nat (length ptr_)) m)
    as [(b & E)|(name & value & ptr' & b & Hb & E)].
  { rewrite E. destruct (0 <? b); intros [= <-]; cbn [snd]; auto. }
  pose proof (Hstep name value m Hb HP) as Hs.
  destruct (handle_property name value m) as [m'|m'] eqn:Eh.
  - rewrite E. pose proof (loop_body_decreases _ _ _ _ _ _ _ E) as Hd.
    apply loop_body_cursor in E.
    apply (IH (length ptr')); [lia | reflexivity | exact Hs].
  - rewrite E. intros [= <-]. exact Hs.
Qed.

End Invariants.

(** ** What a dispatch changes *)

Section Dispatch.
Context `{Mechanism}.

Lemma handle_property_frame name value m :
  match handle_property name value m with
  | inl m' | inr m' =>
      options m' = options m /\ zap_properties m' = zap_properties m
      /\ zmtp_properties m' = zmtp_properties m /\ user_id m' = user_id m
  end.
Proof.
  unfold handle_property.
  destruct (_ && _); [cbn; auto|].
  destruct (name =? ZMTP_PROPERTY_SOCKET_TYPE)%string.
  - destruct (negb _); cbn; auto.
  - cbv zeta. destruct (property name value) as [rc [e|]];
      cbn [fst snd]; destruct (rc =? -1); cbn; auto.
Qed.

Lemma record_property_selected zap_flag name value m :
  selected_properties zap_flag (record_property zap_flag name value m)
  = dict_insert name (string_of_list_byte value) (selected_properties zap_flag m).
Proof. destruct zap_flag; reflexivity. Qed.

Lemma record_property_other zap_flag name value m :
  other_properties zap_flag (record_property zap_flag name value m)
  = other_properties zap_flag m.
Proof. destruct zap_flag; reflexivity. Qed.

Lemma record_property_options zap_flag name value m :
  options (record_property zap_flag name value m) = options m.
Proof. destruct zap_flag; reflexivity. Qed.

Lemma handle_property_selected zap_flag name value m :
  match handle_property name value m with
  | inl m' | inr m' =>
      selected_properties zap_flag m' = selected_properties zap_flag m
      /\ other_properties zap_flag m' = other_properties zap_flag m
  end.
Proof.
  pose proof (handle_property_frame name value m) as Hf.
  destruct (handle_property name value m) as [m'|m'];
    destruct Hf as (_ & Hzap & Hzmtp & _);
    destruct zap_flag; cbn; auto.
Qed.

Lemma dict_insert_lookup (k v name : string) (d : dict_t) :
  dict_insert k v d !! name
  = match d !! name with
    | Some w => Some w
    | None => if (k =? name)%string then Some v else None
    end.
Proof.
  unfold dict_insert. destruct (String.eqb_spec k name) as [->|Hne].
  - destruct (d !! name) eqn:E; [exact E|]. apply lookup_insert_eq.
  - destruct (d !! k) eqn:E; [destruct (d !! name); reflexivity|].
    rewrite lookup_insert_ne by exact Hne. destruct (d !! name); reflexivity.
Qed.

(** What the dictionary of the pass holds after a list of accepted
    properties: what it held before, and for a new name the value of the
    first property of that name. *)
Lemma dispatch_all_lookup zap_flag ps m m1 name :
  dispatch_all zap_flag ps m = inl m1 ->
  selected_properties zap_flag m1 !! name
  = match selected_properties zap_flag m !! name with
    | Some v => Some v
    | None => first_value name ps
    end.
Proof.
  revert m. induction ps as [|p ps IH]; intros m; cbn [dispatch_all first_value].
  - intros [= <-]. destruct (_ !! name); reflexivity.
  - pose proof (handle_property_selected zap_flag p.1 p.2 m) as Hf.
    destruct (handle_property p.1 p.2 m) as [m'|m']; [|discriminate].
    intros E. rewrite (IH _ E), record_property_selected, dict_insert_lookup.
    destruct Hf as [-> _].
    destruct (selected_properties zap_flag m !! name); [reflexivity|].
    destruct (p.1 =? name)%string; reflexivity.
Qed.

Lemma dispatch_all_frame zap_flag ps m :
  match dispatch_all zap_flag ps m with
  | inl m' | inr m' =>
      options m' = options m
      /\ other_properties zap_flag m' = other_properties zap_flag m
  end.
Proof.
  revert m. induction ps as [|p ps IH]; intros m; cbn [dispatch_all]; [auto|].
  pose proof (handle_property_frame p.1 p.2 m) as Hf.
  pose proof (handle_property_selected zap_flag p.1 p.2 m) as Hs.
  destruct (handle_property p.1 p.2 m) as [m'|m'].
  - specialize (IH (record_property zap_flag p.1 p.2 m')).
    rewrite record_property_options, record_property_other in IH.
    destruct (dispatch_all zap_flag ps _); destruct IH as [-> ->];
      destruct Hf as [-> _]; destruct Hs as [_ ->]; auto.
  - destruct Hf as [-> _]; destruct Hs as [_ ->]; auto.
Qed.

Lemma first_value_In p ps : In p ps -> is_Some (first_value p.1 ps).
Proof.
  induction ps as [|q ps IH]; cbn [In first_value]; [tauto|].
  intros [->|Hin].
  - rewrite String.eqb_refl. eauto.
  - destruct (q.1 =? p.1)%string; eauto.
Qed.

(** The parser on a list of complete properties, and nothing else. *)
Lemma parse_metadata_properties ps zap_flag m :
  Forall wire_bounded ps ->
  parse_metadata (wire_properties ps) zap_flag m
  = match dispatch_all zap_flag ps m with
    | inl m' => Some (0, m')
    | inr m' => Some (-1, m')
    end.
Proof.
  intros Hps. rewrite <- (app_nil_r (wire_properties ps)).
  rewrite parse_metadata_app by exact Hps.
  destruct (dispatch_all zap_flag ps m); reflexivity.
Qed.

Lemma parse_metadata_properties_ok ps zap_flag m m1 :
  Forall wire_bounded ps ->
  parse_metadata (wire_properties ps) zap_flag m = Some (0, m1) ->
  dispatch_all zap_flag ps m = inl m1.
Proof.
  intros Hps. rewrite parse_metadata_properties by exact Hps.
  destruct (dispatch_all zap_flag ps m); intros [= <-]; reflexivity.
Qed.

Lemma well_formed_wire_bounded p : well_formed p -> wire_bounded p.
Proof. unfold well_formed, wire_bounded. lia. Qed.

End Dispatch.

(** ** Success and protocol errors *)

(** C1 (amended): on a concatenation of complete well-formed properties that
    the dispatch all accepts, [parse_metadata] returns 0; followed by one
    stray byte, or by the first [k] bytes of a further property ([k] neither
    at the end of its name nor at the end of its value length), it returns
    -1 with [errno] at [EPROTO]; and when the dispatch makes the function
    return at one of the properties, the call returns -1 with the object
    the dispatch left, whatever follows. *)
Theorem parse_metadata_property_list `{Mechanism}
    (ps : list (string * list byte)) (zap_flag : bool) (m : mechanism_t) :
  Forall well_formed ps ->
  (forall m1, dispatch_all zap_flag ps m = inl m1 ->
     parse_metadata (wire_properties ps) zap_flag m = Some (0, m1)
     /\ (forall b, parse_metadata (wire_properties ps ++ [b]) zap_flag m
                   = Some (-1, set_errno EPROTO m1))
     /\ (forall p k,
           wire_bounded p ->
           (0 < k < length (wire_property p))%nat ->
           (k = 1 + String.length p.1 -> k = 1)%nat ->
           (k <> 5 + String.length p.1)%nat ->
           parse_metadata (wire_properties ps ++ take k (wire_property p))
                          zap_flag m
           = Some (-1, set_errno EPROTO m1)))
  /\ (forall m1 rest, dispatch_all zap_flag ps m = inr m1 ->
        parse_metadata (wire_properties ps ++ rest) zap_flag m = Some (-1, m1)).
Proof.
  intros Hwf.
  assert (Hps : Forall wire_bounded ps)
    by (eapply Forall_impl; [exact Hwf|]; apply well_formed_wire_bounded).
  split.
  - intros m1 Hd. split; [|split].
    + rewrite parse_metadata_properties, Hd by exact Hps. reflexivity.
    + intros b. rewrite parse_metadata_app, Hd by exact Hps. reflexivity.
    + intros p k Hp Hk Hk1 Hk5. rewrite parse_metadata_app, Hd by exact Hps.
      apply parse_metadata_truncated; assumption.
  - intros m1 rest Hd. rewrite parse_metadata_app, Hd by exact Hps.
    reflexivity.
Qed.

Lemma parse_metadata_property_list_witness :
  (parse_metadata
     (wire_properties [("Socket-Type", list_byte_of_string "REP");
                       ("Identity", [x61])]) false req_mechanism
   = Some (0, record_property false "Identity" [x61]
                (set_peer_routing_id [x61]
                   (record_property false "Socket-Type"
                      (list_byte_of_string "REP") req_mechanism)))
   /\ parse_metadata
        (wire_properties [("Socket-Type", list_byte_of_string "REP");
                          ("Identity", [x61])] ++ [x07]) false req_mechanism
      = Some (-1, set_errno EPROTO
                    (record_property false "Identity" [x61]
                       (set_peer_routing_id [x61]
                          (record_property false "Socket-Type"
                             (list_byte_of_string "REP") req_mechanism))))
   /\ parse_metadata
        (wire_properties [("Socket-Type", list_byte_of_string "REP");
                          ("Identity", [x61])]
         ++ take 8 (wire_property ("ab", [x63; x64]))) false req_mechanism
      = Some (-1, set_errno EPROTO
                    (record_property false "Identity" [x61]
                       (set_peer_routing_id [x61]
                          (record_property false "Socket-Type"
                             (list_byte_of_string "REP") req_mechanism)))))
  /\ parse_metadata
       (wire_properties [("Socket-Type", list_byte_of_string "PUB")]
        ++ wire_property ("Identity", [x61])) false req_mechanism
     = Some (-1, set_errno EINVAL req_mechanism).
Proof.
  split.
  - destruct (parse_metadata_property_list
                [("Socket-Type", list_byte_of_string "REP"); ("Identity", [x61])]
                false req_mechanism) as [Hok _];
      [repeat constructor; cbn; lia|].
    destruct (Hok _ eq_refl) as (H0 & Hstray & Htrunc).
    split; [exact H0|]. split; [exact (Hstray x07)|].
    apply (Htrunc ("ab", [x63; x64]) 8%nat).
    + split; cbn; lia.
    + cbn; lia.
    + cbn; lia.
    + cbn; lia.
  - refine (proj2 (parse_metadata_property_list
                     [("Socket-Type", list_byte_of_string "PUB")]
                     false req_mechanism _) _ _ eq_refl).
    repeat constructor; cbn; lia.
Defined.

(** Against C1 as first worded: the range below is a concatenation
    of complete well-formed properties, and on a REQ socket [parse_metadata]
    does not return success on it. *)
Lemma parse_metadata_well_formed_rejected :
  Forall well_formed [("Socket-Type", list_byte_of_string "PUB")]
  /\ parse_metadata
       (wire_properties [("Socket-Type", list_byte_of_string "PUB")])
       false req_mechanism
     = Some (-1, set_errno EINVAL req_mechanism)
  /\ EINVAL <> EPROTO.
Proof.
  split; [repeat constructor; cbn; lia|]. split; [reflexivity | discriminate].
Qed.

(** C6: the range below is the property ("a", "b") without its last value
    byte, the only byte of its value; the loop breaks with the counter at 0
    and [parse_metadata] returns 0, not -1 with [EPROTO]. *)
Theorem parse_metadata_missing_value_byte `{Mechanism}
    (zap_flag : bool) (m : mechanism_t) :
  removelast (wire_property ("a", [x62])) = [x01; x61; x00; x00; x00; x01]
  /\ parse_metadata [x01; x61; x00; x00; x00; x01] zap_flag m = Some (0, m).
Proof. split; reflexivity. Qed.

(** ** The dispatch makes the function return *)

(** C7: when the properties before it were accepted and a "Socket-Type"
    property carries a role that [check_socket_type] refuses, or the
    [property] hook returns -1 for a property, [parse_metadata] returns -1
    at once: the object is the one left by the properties before, with only
    [errno] assigned ([EINVAL], which is not [EPROTO], for the role; what the
    hook assigned for the hook), whatever bytes follow. *)
Theorem parse_metadata_short_circuit `{Mechanism}
    (ps : list (string * list byte)) (p : string * list byte)
    (rest : list byte) (zap_flag : bool) (m m1 : mechanism_t) :
  Forall wire_bounded ps ->
  wire_bounded p ->
  parse_metadata (wire_properties ps) zap_flag m = Some (0, m1) ->
  (p.1 = ZMTP_PROPERTY_SOCKET_TYPE ->
   check_socket_type m (string_of_list_byte p.2) = false ->
   parse_metadata (wire_properties ps ++ wire_property p ++ rest) zap_flag m
   = Some (-1, set_errno EINVAL m1))
  /\ (p.1 <> ZMTP_PROPERTY_SOCKET_TYPE ->
      (p.1 = ZMTP_PROPERTY_IDENTITY ->
       Options.recv_routing_id (options m) = false) ->
      (property p.1 p.2).1 = -1 ->
      parse_metadata (wire_properties ps ++ wire_property p ++ rest) zap_flag m
      = Some (-1, match (property p.1 p.2).2 with
                  | Some e => set_errno e m1
                  | None => m1
                  end))
  /\ EINVAL <> EPROTO.
Proof.
  intros Hps Hp Hok.
  apply parse_metadata_properties_ok in Hok; [|exact Hps].
  pose proof (dispatch_all_frame zap_flag ps m) as Hf. rewrite Hok in Hf.
  destruct Hf as [Hopt _].
  assert (Hcheck : forall t, check_socket_type m1 t = check_socket_type m t)
    by (intros t; unfold check_socket_type; rewrite Hopt; reflexivity).
  split; [|split; [|discriminate]].
  - intros Hname Hbad.
    rewrite parse_metadata_app, Hok, parse_metadata_cons by assumption.
    unfold handle_property. rewrite Hname. cbn [String.eqb andb].
    replace (ZMTP_PROPERTY_SOCKET_TYPE =? ZMTP_PROPERTY_IDENTITY)%string
      with false by reflexivity.
    cbn [andb]. rewrite String.eqb_refl, Hcheck, Hbad. reflexivity.
  - intros Hname Hid Hrc.
    rewrite parse_metadata_app, Hok, parse_metadata_cons by assumption.
    unfold handle_property. rewrite Hopt.
    replace ((p.1 =? ZMTP_PROPERTY_IDENTITY)%string
             && Options.recv_routing_id (options m)) with false.
    + destruct (String.eqb_spec p.1 ZMTP_PROPERTY_SOCKET_TYPE); [contradiction|].
      cbv zeta. rewrite Hrc. reflexivity.
    + destruct (String.eqb_spec p.1 ZMTP_PROPERTY_IDENTITY) as [E|E];
        [rewrite (Hid E)|]; reflexivity.
Qed.

Lemma parse_metadata_short_circuit_witness :
  parse_metadata
    (wire_properties [("a", [x62])]
     ++ wire_property ("Socket-Type", list_byte_of_string "PUB")
     ++ wire_property ("c", [x64])) false req_mechanism
  = Some (-1, set_errno EINVAL (record_property false "a" [x62] req_mechanism))
  /\ @parse_metadata refusing_mechanism
       (wire_properties [("a", [x62])]
        ++ wire_property ("X-Deny", [x31]) ++ wire_property ("c", [x64]))
       true req_mechanism
     = Some (-1, set_errno 13 (record_property true "a" [x62] req_mechanism)).
Proof.
  split.
  - refine (proj1 (parse_metadata_short_circuit [("a", [x62])]
                     ("Socket-Type", list_byte_of_string "PUB")
                     (wire_property ("c", [x64])) false req_mechanism _ _ _ _)
                  eq_refl eq_refl).
    + repeat constructor; cbn; lia.
    + split; cbn; lia.
    + reflexivity.
  - refine (proj1 (proj2 (@parse_metadata_short_circuit refusing_mechanism
                            [("a", [x62])] ("X-Deny", [x31])
                            (wire_property ("c", [x64])) true req_mechanism
                            _ _ _ _)) _ _ eq_refl).
    + repeat constructor; cbn; lia.
    + split; cbn; lia.
    + reflexivity.
    + cbn. discriminate.
    + cbn. discriminate.
Defined.

(** ** The two dictionaries *)

Section Dictionaries.
Context `{Mechanism}.

Lemma parse_metadata_other zap_flag ptr_ m rc m' :
  parse_metadata ptr_ zap_flag m = Some (rc, m') ->
  other_properties zap_flag m' = other_properties zap_flag m.
Proof.
  intros Hp.
  apply (parse_metadata_invariant
           (fun x => other_properties zap_flag x = other_properties zap_flag m)
           zap_flag) with (r := (rc, m')) (ptr_ := ptr_) (m := m);
    [| |reflexivity|exact Hp].
  - intros name value x _ Hx.
    pose proof (handle_property_selected zap_flag name value x) as Hs.
    destruct (handle_property name value x) as [x'|x']; destruct Hs as [_ Hs].
    + rewrite record_property_other. congruence.
    + congruence.
  - intros x Hx. rewrite <- Hx. destruct zap_flag; reflexivity.
Qed.

Lemma dict_insert_mono (k v name w : string) (d : dict_t) :
  d !! name = Some w -> dict_insert k v d !! name = Some w.
Proof. intros E. rewrite dict_insert_lookup, E. reflexivity. Qed.

(** What the dictionary of the pass holds, it holds after the call. *)
Lemma parse_metadata_selected_mono zap_flag ptr_ m rc m' name v :
  parse_metadata ptr_ zap_flag m = Some (rc, m') ->
  selected_properties zap_flag m !! name = Some v ->
  selected_properties zap_flag m' !! name = Some v.
Proof.
  intros Hp Hv.
  apply (parse_metadata_invariant
           (fun x => selected_properties zap_flag x !! name = Some v)
           zap_flag) with (r := (rc, m')) (ptr_ := ptr_) (m := m);
    [| |exact Hv|exact Hp].
  - intros name0 value0 x _ Hx.
    pose proof (handle_property_selected zap_flag name0 value0 x) as Hs.
    destruct (handle_property name0 value0 x) as [x'|x']; destruct Hs as [Hs _].
    + rewrite record_property_selected. apply dict_insert_mono. congruence.
    + congruence.
  - intros x Hx. rewrite <- Hx. destruct zap_flag; reflexivity.
Qed.

Lemma parse_metadata_recorded zap_flag ps rest m m1 rc m' p :
  Forall wire_bounded ps ->
  parse_metadata (wire_properties ps) zap_flag m = Some (0, m1) ->
  parse_metadata (wire_properties ps ++ rest) zap_flag m = Some (rc, m') ->
  In p ps ->
  is_Some (selected_properties zap_flag m' !! p.1).
Proof.
  intros Hps Hok Hp Hin.
  apply parse_metadata_properties_ok in Hok; [|exact Hps].
  rewrite parse_metadata_app, Hok in Hp by exact Hps.
  assert (Hone : is_Some (selected_properties zap_flag m1 !! p.1)).
  { rewrite (dispatch_all_lookup _ _ _ _ _ Hok).
    destruct (selected_properties zap_flag m !! p.1); [eauto|].
    apply first_value_In. exact Hin. }
  destruct Hone as [v Hv]. exists v.
  eapply parse_metadata_selected_mono; eauto.
Qed.

(** The entry of a property dispatched with success: the value the
    dictionary of the pass held under that name before the call, or else the
    value of the first property of that name; what follows in the range does
    not change it. *)
Lemma parse_metadata_recorded_value zap_flag ps rest m m1 rc m' p :
  Forall wire_bounded ps ->
  parse_metadata (wire_properties ps) zap_flag m = Some (0, m1) ->
  parse_metadata (wire_properties ps ++ rest) zap_flag m = Some (rc, m') ->
  In p ps ->
  selected_properties zap_flag m' !! p.1
  = match selected_properties zap_flag m !! p.1 with
    | Some v => Some v
    | None => first_value p.1 ps
    end
  /\ is_Some (first_value p.1 ps).
Proof.
  intros Hps Hok Hp Hin.
  apply parse_metadata_properties_ok in Hok; [|exact Hps].
  rewrite parse_metadata_app, Hok in Hp by exact Hps.
  pose proof (first_value_In p ps Hin) as Hfirst.
  split; [|exact Hfirst].
  pose proof (dispatch_all_lookup _ _ _ _ p.1 Hok) as Hone.
  destruct (selected_properties zap_flag m !! p.1) as [v|].
  - eapply parse_metadata_selected_mono; eauto.
  - destruct Hfirst as [v Hv]. rewrite Hv in *.
    eapply parse_metadata_selected_mono; eauto.
Qed.

(** Every entry the call adds to the dictionary of the pass has a name of at
    most 255 bytes and a value of at most 2^32-1 bytes. *)
Lemma parse_metadata_recorded_bounds zap_flag ptr_ m rc m' name v :
  parse_metadata ptr_ zap_flag m = Some (rc, m') ->
  selected_properties zap_flag m' !! name = Some v ->
  selected_properties zap_flag m !! name = Some v
  \/ (Z.of_nat (String.length name) <= 255
      /\ Z.of_nat (String.length v) <= 2 ^ 32 - 1).
Proof.
  intros Hp. revert name v.
  apply (parse_metadata_invariant
           (fun x => forall name v,
              selected_properties zap_flag x !! name = Some v ->
              selected_properties zap_flag m !! name = Some v
              \/ (Z.of_nat (String.length name) <= 255
                  /\ Z.of_nat (String.length v) <= 2 ^ 32 - 1))
           zap_flag) with (r := (rc, m')) (ptr_ := ptr_) (m := m);
    [| |auto|exact Hp].
  - intros name0 value0 x [Hn Hv] Hx. cbn [fst snd] in *.
    pose proof (handle_property_selected zap_flag name0 value0 x) as Hs.
    destruct (handle_property name0 value0 x) as [x'|x']; destruct Hs as [Hs _].
    + intros name v. rewrite record_property_selected, dict_insert_lookup, Hs.
      destruct (selected_properties zap_flag x !! name) as [w|] eqn:E.
      * intros [= <-]. apply Hx. exact E.
      * destruct (String.eqb_spec name0 name) as [<-|]; [|discriminate].
        intros [= <-]. right. rewrite length_string_of_list_byte. lia.
    + rewrite Hs. exact Hx.
  - intros x Hx name v. destruct zap_flag; exact (Hx name v).
Qed.

End Dictionaries.

(** C8 (amended): in one call of [parse_metadata] with [zap_flag] true,
    [zmtp_properties] is left as it was, however the call ends, and for every
    property dispatched with success, "Socket-Type" and "Identity" included,
    [zap_properties] afterwards maps its name to the value it held under
    that name before the call, or else to the value of the first property of
    that name in the buffer: the pair is inserted unless the name is already
    a key.  With [zap_flag] false the same holds with the two dictionaries
    exchanged. *)
Theorem parse_metadata_dictionaries `{Mechanism} (m : mechanism_t) :
  (forall ptr_ rc m',
     parse_metadata ptr_ true m = Some (rc, m') ->
     zmtp_properties m' = zmtp_properties m)
  /\ (forall ptr_ rc m',
        parse_metadata ptr_ false m = Some (rc, m') ->
        zap_properties m' = zap_properties m)
  /\ (forall ps rest m1 rc m' p,
        Forall wire_bounded ps ->
        parse_metadata (wire_properties ps) true m = Some (0, m1) ->
        parse_metadata (wire_properties ps ++ rest) true m = Some (rc, m') ->
        In p ps ->
        zap_properties m' !! p.1
        = match zap_properties m !! p.1 with
          | Some v => Some v
          | None => first_value p.1 ps
          end
        /\ is_Some (first_value p.1 ps)
        /\ (zap_properties m !! p.1 = None ->
            first_value p.1 ps = Some (string_of_list_byte p.2) ->
            zap_properties m' !! p.1 = Some (string_of_list_byte p.2)))
  /\ (forall ps rest m1 rc m' p,
        Forall wire_bounded ps ->
        parse_metadata (wire_properties ps) false m = Some (0, m1) ->
        parse_metadata (wire_properties ps ++ rest) false m = Some (rc, m') ->
        In p ps ->
        zmtp_properties m' !! p.1
        = match zmtp_properties m !! p.1 with
          | Some v => Some v
          | None => first_value p.1 ps
          end
        /\ is_Some (first_value p.1 ps)
        /\ (zmtp_properties m !! p.1 = None ->
            first_value p.1 ps = Some (string_of_list_byte p.2) ->
            zmtp_properties m' !! p.1 = Some (string_of_list_byte p.2))).
Proof.
  split; [|split; [|split]].
  - intros ptr_ rc m'. apply (parse_metadata_other true).
  - intros ptr_ rc m'. apply (parse_metadata_other false).
  - intros ps rest m1 rc m' p Hps Hok Hp Hin.
    destruct (parse_metadata_recorded_value true ps rest m m1 rc m' p
                Hps Hok Hp Hin) as [Hv Hs].
    cbn [selected_properties] in Hv.
    split; [exact Hv|]. split; [exact Hs|].
    intros Hnone Hfirst. rewrite Hv, Hnone. exact Hfirst.
  - intros ps rest m1 rc m' p Hps Hok Hp Hin.
    destruct (parse_metadata_recorded_value false ps rest m m1 rc m' p
                Hps Hok Hp Hin) as [Hv Hs].
    cbn [selected_properties] in Hv.
    split; [exact Hv|]. split; [exact Hs|].
    intros Hnone Hfirst. rewrite Hv, Hnone. exact Hfirst.
Qed.

Lemma parse_metadata_dictionaries_witness :
  zmtp_properties
    (record_property true "Identity" [x61]
       (set_peer_routing_id [x61]
          (record_property true "Socket-Type" (list_byte_of_string "REP")
             req_mechanism)))
  = zmtp_properties req_mechanism
  /\ zap_properties
       (record_property true "Identity" [x61]
          (set_peer_routing_id [x61]
             (record_property true "Socket-Type" (list_byte_of_string "REP")
                req_mechanism)))
     !! "Socket-Type" = Some "REP"
  /\ zap_properties
       (record_property true "Identity" [x61]
          (set_peer_routing_id [x61]
             (record_property true "Socket-Type" (list_byte_of_string "REP")
                req_mechanism)))
     !! "Identity" = Some "a".
Proof.
  pose proof (parse_metadata_dictionaries req_mechanism) as (Hframe & _ & Hrec & _).
  assert (Hps : Forall wire_bounded
                  [("Socket-Type", list_byte_of_string "REP");
                   ("Identity", [x61])])
    by (repeat constructor; cbn; lia).
  split; [|split].
  - exact (Hframe (wire_properties [("Socket-Type", list_byte_of_string "REP");
                                    ("Identity", [x61])]) 0 _ eq_refl).
  - exact (proj2 (proj2 (Hrec _ [] _ 0 _
                           ("Socket-Type", list_byte_of_string "REP")
                           Hps eq_refl eq_refl (or_introl eq_refl)))
                 eq_refl eq_refl).
  - exact (proj2 (proj2 (Hrec _ [] _ 0 _ ("Identity", [x61])
                           Hps eq_refl eq_refl
                           (or_intror (or_introl eq_refl))))
                 eq_refl eq_refl).
Defined.

(** Against C8 as first worded: on a REQ socket two "Socket-Type"
    properties, "REP" then "ROUTER", are both dispatched with success, the
    call returns 0, and [zap_properties] holds "REP" under "Socket-Type":
    the second pair is not inserted. *)
Lemma parse_metadata_repeated_name_not_inserted :
  Forall wire_bounded [("Socket-Type", list_byte_of_string "REP");
                       ("Socket-Type", list_byte_of_string "ROUTER")]
  /\ dispatch_all true [("Socket-Type", list_byte_of_string "REP");
                        ("Socket-Type", list_byte_of_string "ROUTER")]
       req_mechanism
     = inl (record_property true "Socket-Type" (list_byte_of_string "REP")
              req_mechanism)
  /\ parse_metadata
       (wire_properties [("Socket-Type", list_byte_of_string "REP");
                         ("Socket-Type", list_byte_of_string "ROUTER")])
       true req_mechanism
     = Some (0, record_property true "Socket-Type" (list_byte_of_string "REP")
                  req_mechanism)
  /\ zap_properties
       (record_property true "Socket-Type" (list_byte_of_string "REP")
          req_mechanism) !! "Socket-Type" = Some "REP"
  /\ zap_properties
       (record_property true "Socket-Type" (list_byte_of_string "REP")
          req_mechanism) !! "Socket-Type" <> Some "ROUTER".
Proof.
  split; [repeat constructor; cbn; lia|].
  split; [vm_compute; reflexivity|].
  split; [vm_compute; reflexivity|].
  split; [reflexivity|]. vm_compute. discriminate.
Qed.

(** ** Which write wins *)

(** C5 (amended): in each dictionary keys are unique and the first write
    wins.  After [parse_metadata] returned 0 on a list of properties, the
    dictionary of the pass maps a name it already held to the value it held,
    and a new name to the value of the first property of that name in the
    buffer; [set_user_id] replaces the stored user identifier, and leaves the
    value of "User-Id" in [zap_properties] as it is when the key is present. *)
Theorem dictionary_first_write_wins `{Mechanism} (m : mechanism_t) :
  (forall ps zap_flag m' name,
     Forall wire_bounded ps ->
     parse_metadata (wire_properties ps) zap_flag m = Some (0, m') ->
     selected_properties zap_flag m' !! name
     = match selected_properties zap_flag m !! name with
       | Some v => Some v
       | None => first_value name ps
       end)
  /\ (forall data_,
        get_user_id (set_user_id data_ m) = data_
        /\ zap_properties (set_user_id data_ m) !! ZMQ_MSG_PROPERTY_USER_ID
           = match zap_properties m !! ZMQ_MSG_PROPERTY_USER_ID with
             | Some v => Some v
             | None => Some (string_of_list_byte data_)
             end).
Proof.
  split.
  - intros ps zap_flag m' name Hps Hok.
    apply parse_metadata_properties_ok in Hok; [|exact Hps].
    apply dispatch_all_lookup. exact Hok.
  - intros data_. split; [reflexivity|].
    unfold set_user_id. cbn [zap_properties set_zap_properties set_user_id_blob].
    rewrite dict_insert_lookup, String.eqb_refl. reflexivity.
Qed.

Lemma dictionary_first_write_wins_witness :
  selected_properties true
    (record_property true "X" [x32] (record_property true "X" [x31] req_mechanism))
    !! "X"
  = Some "1".
Proof.
  refine (proj1 (dictionary_first_write_wins req_mechanism)
                [("X", [x31]); ("X", [x32])] true _ "X" _ eq_refl).
  repeat constructor; cbn; lia.
Defined.

(** Against C5 as first worded: after two properties named "X", with
    values "1" then "2", the dictionary maps "X" to "1"; and a second
    [set_user_id] leaves "User-Id" at the value of the first. *)
Lemma dictionary_last_write_loses :
  (exists m',
     parse_metadata (wire_properties [("X", [x31]); ("X", [x32])])
       true req_mechanism = Some (0, m')
     /\ zap_properties m' !! "X" = Some "1"
     /\ zap_properties m' !! "X" <> Some "2")
  /\ zap_properties
       (set_user_id (list_byte_of_string "bob")
          (set_user_id (list_byte_of_string "alice") req_mechanism))
     !! ZMQ_MSG_PROPERTY_USER_ID = Some "alice"
  /\ get_user_id
       (set_user_id (list_byte_of_string "bob")
          (set_user_id (list_byte_of_string "alice") req_mechanism))
     = list_byte_of_string "bob".
Proof.
  split; [|split; reflexivity].
  eexists. split; [reflexivity|]. split; [reflexivity|].
  vm_compute. discriminate.
Qed.

(** ** The bounds of a property *)

(** C4 (amended): [add_property] aborts rather than encode a name of more
    than 255 bytes or a value of more than 2^31-1 bytes, and what it encodes
    is within these bounds; every entry [parse_metadata] adds to a dictionary
    has a name of at most 255 bytes and a value of at most 2^32-1 bytes, the
    most the 4-byte length can express. *)
Theorem property_bounds `{Mechanism} :
  (forall ptr name value,
     255 < Z.of_nat (String.length name)
     \/ 2 ^ 31 - 1 < Z.of_nat (length value) ->
     add_property ptr name value = None)
  /\ (forall ptr name value r,
        add_property ptr name value = Some r ->
        Z.of_nat (String.length name) <= 255
        /\ Z.of_nat (length value) <= 2 ^ 31 - 1)
  /\ (forall ptr_ zap_flag m rc m' name v,
        parse_metadata ptr_ zap_flag m = Some (rc, m') ->
        selected_properties zap_flag m' !! name = Some v ->
        selected_properties zap_flag m !! name = Some v
        \/ (Z.of_nat (String.length name) <= 255
            /\ Z.of_nat (String.length v) <= 2 ^ 32 - 1)).
Proof.
  split; [|split].
  - apply add_property_abort.
  - intros ptr name value r Hr.
    destruct (Z.le_gt_cases (Z.of_nat (String.length name)) 255) as [Hn|Hn];
      [destruct (Z.le_gt_cases (Z.of_nat (length value)) (2 ^ 31 - 1))
         as [Hv|Hv]; [auto|]|];
      rewrite add_property_abort in Hr by lia; discriminate.
  - intros ptr_ zap_flag m rc m' name v.
    apply parse_metadata_recorded_bounds.
Qed.

Lemma property_bounds_witness :
  add_property [] (string_of_list_byte (repeat x61 256)) [] = None
  /\ (Z.of_nat (String.length "name") <= 255
      /\ Z.of_nat (length [x61; x62]) <= 2 ^ 31 - 1)
  /\ (selected_properties true req_mechanism !! "a" = Some "b"
      \/ Z.of_nat (String.length "a") <= 255
         /\ Z.of_nat (String.length "b") <= 2 ^ 32 - 1).
Proof.
  pose proof (@property_bounds default_mechanism) as (Habort & Hadd & Hparse).
  split; [|split].
  - apply Habort. left. vm_compute. reflexivity.
  - exact (Hadd (repeat x00 16) "name" [x61; x62] _ eq_refl).
  - exact (Hparse (wire_property ("a", [x62])) true req_mechanism 0 _ "a" "b"
                  eq_refl eq_refl).
Defined.

Lemma long_value_length : Z.of_nat (length long_value) = 2 ^ 31.
Proof.
  unfold long_value. rewrite repeat_length, Z2Nat.id; lia.
Qed.

Lemma parse_metadata_records_value (v : list byte) :
  Z.of_nat (length v) <= 2 ^ 32 - 1 ->
  parse_metadata (wire_property ("X", v)) false req_mechanism
  = Some (0, record_property false "X" v req_mechanism)
  /\ zmtp_properties (record_property false "X" v req_mechanism) !! "X"
     = Some (string_of_list_byte v).
Proof.
  intros Hv. split.
  - rewrite parse_metadata_single by (split; cbn [fst snd]; [cbn; lia | lia]).
    reflexivity.
  - reflexivity.
Qed.

(** Against C4 as first worded: [parse_metadata] decodes and records
    a property whose value has 2^31 bytes. *)
Lemma parse_metadata_long_value :
  parse_metadata (wire_property ("X", long_value)) false req_mechanism
  = Some (0, record_property false "X" long_value req_mechanism)
  /\ zmtp_properties (record_property false "X" long_value req_mechanism) !! "X"
     = Some (string_of_list_byte long_value)
  /\ 2 ^ 31 - 1 < Z.of_nat (String.length (string_of_list_byte long_value)).
Proof.
  pose proof long_value_length as Hlen.
  destruct (parse_metadata_records_value long_value) as [Hp Hl]; [lia|].
  split; [exact Hp|]. split; [exact Hl|].
  rewrite length_string_of_list_byte. lia.
Qed.

(** * Further properties of the code *)

(** ** The compatibility matrix, seen from both peers *)

Lemma socket_type_string_inv (t : Z) (name : string) :
  socket_type_string t = Some name ->
  0 <= t <= 18 /\ name = nth (Z.to_nat t) socket_type_names "".
Proof.
  unfold socket_type_string.
  destruct (Z.leb_spec 0 t); [|discriminate].
  destruct (Z.leb_spec t 18); [|discriminate].
  cbn [andb zmq_assert mbind option_bind]. intros [= <-]. split; [lia|reflexivity].
Qed.

Ltac split_role t H :=
  assert (H : t = 0 \/ t = 1 \/ t = 2 \/ t = 3 \/ t = 4 \/ t = 5 \/ t = 6
              \/ t = 7 \/ t = 8 \/ t = 9 \/ t = 10 \/ t = 11 \/ t = 12
              \/ t = 13 \/ t = 14 \/ t = 15 \/ t = 16 \/ t = 17 \/ t = 18)
    by lia;
  repeat (destruct H as [H|H]); subst t.

Lemma check_socket_type_role (m : mechanism_t) (t : Z) (type_ : string) :
  Options.type (options m) = t ->
  check_socket_type m type_ = check_socket_type (role_mechanism t) type_.
Proof. intros <-. reflexivity. Qed.

(** The two peers of a connection agree: the local role [a] accepts the name
    of the role [b] exactly when the role [b] accepts the name of [a]. *)
Theorem check_socket_type_symmetric (a b : mechanism_t) (na nb : string) :
  socket_type_string (Options.type (options a)) = Some na ->
  socket_type_string (Options.type (options b)) = Some nb ->
  check_socket_type a nb = check_socket_type b na.
Proof.
  intros Ha Hb.
  rewrite (check_socket_type_role a _ nb eq_refl).
  rewrite (check_socket_type_role b _ na eq_refl).
  apply socket_type_string_inv in Ha, Hb.
  destruct Ha as [Hta ->]. destruct Hb as [Htb ->].
  generalize dependent (Options.type (options a)). intros ta Hta.
  generalize dependent (Options.type (options b)). intros tb Htb.
  split_role ta Ha; split_role tb Hb; reflexivity.
Qed.

Lemma check_socket_type_symmetric_witness :
  check_socket_type req_mechanism "ROUTER"
  = check_socket_type router_mechanism "REQ".
Proof.
  exact (check_socket_type_symmetric req_mechanism router_mechanism
           "REQ" "ROUTER" eq_refl eq_refl).
Defined.

Lemma existsb_eqb_In (x : string) (l : list string) :
  existsb (String.eqb x) l = true -> In x l.
Proof.
  intros E. apply existsb_exists in E. destruct E as (y & Hin & Hy).
  apply String.eqb_eq in Hy. subst y. exact Hin.
Qed.

(** [check_socket_type] accepts nothing but the name of a role, never the
    name "STREAM", and never for a local role that is STREAM or is no role
    at all. *)
Theorem check_socket_type_accepts_roles (m : mechanism_t) (type_ : string) :
  check_socket_type m type_ = true ->
  (exists peer, 0 <= peer <= 18 /\ peer <> ZMQ_STREAM
                /\ socket_type_string peer = Some type_)
  /\ 0 <= Options.type (options m) <= 18
  /\ Options.type (options m) <> ZMQ_STREAM.
Proof.
  rewrite check_socket_type_is_compatible. unfold is_compatible, table_row.
  generalize (Options.type (options m)) as t. intros t.
  destruct (find _ compatibility_table) as [[role names]|] eqn:E;
    [|discriminate].
  apply find_some in E. destruct E as [Hin Ht].
  apply Z.eqb_eq in Ht. cbn [fst snd option_map] in *. subst role.
  intros Hacc. apply existsb_eqb_In in Hacc.
  assert (Hrow : In type_ names -> In (t, names) compatibility_table ->
                 In type_ socket_type_names /\ type_ <> "STREAM"
                 /\ 0 <= t <= 18 /\ t <> ZMQ_STREAM).
  { clear. unfold compatibility_table. cbn [In].
    intros Hn Hrow.
    repeat (destruct Hrow as [Hrow|Hrow];
            [injection Hrow as <- <-; cbn [In] in Hn;
             repeat (destruct Hn as [<-|Hn]; [vm_compute; intuition discriminate|]);
             destruct Hn|]).
    destruct Hrow. }
  destruct (Hrow Hacc Hin) as (Hname & Hns & Hrange & Hnot).
  split; [|split; assumption].
  apply (In_nth _ _ "") in Hname. destruct Hname as (i & Hi & Hnth).
  cbn [length socket_type_names] in Hi.
  exists (Z.of_nat i). split; [lia|]. split.
  - intros Hs. unfold ZMQ_STREAM in Hs.
    assert (i = 11%nat) by lia. subst i. apply Hns. rewrite <- Hnth. reflexivity.
  - unfold socket_type_string.
    destruct (Z.leb_spec 0 (Z.of_nat i)); [|lia].
    destruct (Z.leb_spec (Z.of_nat i) 18); [|lia].
    cbn [andb zmq_assert mbind option_bind]. rewrite Nat2Z.id, Hnth. reflexivity.
Qed.

Lemma check_socket_type_accepts_roles_witness :
  exists peer, 0 <= peer <= 18 /\ peer <> ZMQ_STREAM
               /\ socket_type_string peer = Some "REP".
Proof.
  exact (proj1 (check_socket_type_accepts_roles req_mechanism "REP" eq_refl)).
Defined.

(** ** What [parse_metadata] returns and what it leaves alone *)

Section Results.
Context `{Mechanism}.

(** A property [P] of the object kept by every accepted dispatch gives a
    property [R] of the result, provided [R] holds at each of the three ways
    the function returns. *)
Lemma parse_metadata_result (P : mechanism_t -> Prop)
    (R : Z * mechanism_t -> Prop) zap_flag :
  (forall name value m,
     wire_bounded (name, value) -> P m ->
     match handle_property name value m with
     | inl m' => P (record_property zap_flag name value m')
     | inr m' => R (-1, m')
     end) ->
  (forall m, P m -> R (0, m) /\ R (-1, set_errno EPROTO m)) ->
  forall ptr_ m r,
    P m -> parse_metadata ptr_ zap_flag m = Some r -> R r.
Proof.
  intros Hstep Hend ptr_.
  remember (length ptr_) as n eqn:En. revert ptr_ En.
  induction n as [n IH] using lt_wf_ind. intros ptr_ En m r HP.
  destruct (Nat.le_gt_cases (length ptr_) 1) as [Hshort|Hlong].
  { rewrite parse_metadata_short by exact Hshort.
    destruct (0 <? _); intros [= <-]; apply Hend; exact HP. }
  rewrite parse_metadata_step by exact Hlong.
  destruct (loop_body_inv zap_flag ptr_ (Z.of_nat (length ptr_)) m)
    as [(b & E)|(name & value & ptr' & b & Hb & E)].
  { rewrite E. destruct (0 <? b); intros [= <-]; apply Hend; exact HP. }
  pose proof (Hstep name value m Hb HP) as Hs.
  destruct (handle_property name value m) as [m'|m'] eqn:Eh.
  - rewrite E. pose proof (loop_body_decreases _ _ _ _ _ _ _ E) as Hd.
    apply loop_body_cursor in E.
    apply (IH (length ptr')); [lia | reflexivity | exact Hs].
  - rewrite E. intros [= <-]. exact Hs.
Qed.

Lemma handle_property_routing_id name value m :
  match handle_property name value m with
  | inl m' =>
      routing_id m'
      = if (name =? ZMTP_PROPERTY_IDENTITY)%string
           && Options.recv_routing_id (options m)
        then value else routing_id m
  | inr m' => routing_id m' = routing_id m
  end.
Proof.
  unfold handle_property.
  destruct (_ && _); [reflexivity|].
  destruct (name =? ZMTP_PROPERTY_SOCKET_TYPE)%string.
  - destruct (negb _); reflexivity.
  - cbv zeta. destruct (property name value) as [rc [e|]];
      cbn [fst snd]; destruct (rc =? -1); reflexivity.
Qed.

Lemma record_property_fields zap_flag name value m :
  options (record_property zap_flag name value m) = options m
  /\ routing_id (record_property zap_flag name value m) = routing_id m
  /\ user_id (record_property zap_flag name value m) = user_id m
  /\ errno (record_property zap_flag name value m) = errno m.
Proof. destruct zap_flag; cbn; auto. Qed.

End Results.

(** Whatever the bytes and however the call ends, [parse_metadata] leaves
    the options and the user identifier of the object as they were, and,
    when receiving the peer routing id is disabled, the peer routing id
    too. *)
Theorem parse_metadata_frame `{Mechanism} (ptr_ : list byte) (zap_flag : bool)
    (m : mechanism_t) (rc : Z) (m' : mechanism_t) :
  parse_metadata ptr_ zap_flag m = Some (rc, m') ->
  options m' = options m
  /\ user_id m' = user_id m
  /\ (Options.recv_routing_id (options m) = false ->
      routing_id m' = routing_id m).
Proof.
  intros Hp.
  apply (parse_metadata_invariant
           (fun x => options x = options m /\ user_id x = user_id m
                     /\ (Options.recv_routing_id (options m) = false ->
                         routing_id x = routing_id m))
           zap_flag) with (r := (rc, m')) (ptr_ := ptr_) (m := m);
    [| |auto|exact Hp].
  - intros name value x _ (Ho & Hu & Hr).
    pose proof (handle_property_frame name value x) as Hf.
    pose proof (handle_property_routing_id name value x) as Hi.
    destruct (handle_property name value x) as [x'|x'];
      destruct Hf as (Ho' & _ & _ & Hu').
    + destruct (record_property_fields zap_flag name value x')
        as (-> & -> & -> & _).
      split; [congruence|]. split; [congruence|].
      intros Hrecv. rewrite Hi, Ho, Hrecv, andb_false_r. auto.
    + split; [congruence|]. split; [congruence|].
      intros Hrecv. rewrite Hi. auto.
  - intros x Hx. exact Hx.
Qed.

Lemma parse_metadata_frame_witness :
  routing_id
    (record_property false "Identity" [x61] push_mechanism)
  = routing_id push_mechanism.
Proof.
  exact (proj2 (proj2 (parse_metadata_frame
                         (wire_property ("Identity", [x61])) false
                         push_mechanism 0 _ eq_refl)) eq_refl).
Defined.

(** For the peer routing id the last write wins: after [parse_metadata]
    returned 0 on a list of properties, with receiving enabled, the stored
    peer routing id is the value of the last "Identity" property of the
    list, or what it was when the list has none. *)
Theorem parse_metadata_routing_id `{Mechanism} (ps : list (string * list byte))
    (zap_flag : bool) (m m' : mechanism_t) :
  Forall wire_bounded ps ->
  Options.recv_routing_id (options m) = true ->
  parse_metadata (wire_properties ps) zap_flag m = Some (0, m') ->
  routing_id m' = match last_identity ps with
                  | Some v => v
                  | None => routing_id m
                  end.
Proof.
  intros Hps Hrecv Hok.
  apply parse_metadata_properties_ok in Hok; [|exact Hps].
  clear Hps. revert m Hrecv Hok.
  induction ps as [|p ps IH]; intros m Hrecv; cbn [dispatch_all last_identity].
  - intros [= <-]. reflexivity.
  - pose proof (handle_property_frame p.1 p.2 m) as Hf.
    pose proof (handle_property_routing_id p.1 p.2 m) as Hi.
    destruct (handle_property p.1 p.2 m) as [x|x]; [|discriminate].
    destruct Hf as (Ho & _).
    intros Hd. apply IH in Hd;
      [|rewrite (proj1 (record_property_fields _ _ _ _)); congruence].
    rewrite Hd. destruct (last_identity ps); [reflexivity|].
    rewrite (proj1 (proj2 (record_property_fields _ _ _ _))), Hi, Hrecv,
      andb_true_r.
    destruct (p.1 =? ZMTP_PROPERTY_IDENTITY)%string; reflexivity.
Qed.

Lemma parse_metadata_routing_id_witness :
  routing_id
    (record_property true "Identity" [x62]
       (set_peer_routing_id [x62]
          (record_property true "Identity" [x61]
             (set_peer_routing_id [x61] req_mechanism))))
  = [x62]
  /\ zap_properties
       (record_property true "Identity" [x62]
          (set_peer_routing_id [x62]
             (record_property true "Identity" [x61]
                (set_peer_routing_id [x61] req_mechanism))))
     !! "Identity" = Some "a".
Proof.
  split; [|reflexivity].
  refine (parse_metadata_routing_id [("Identity", [x61]); ("Identity", [x62])]
            true req_mechanism _ _ eq_refl eq_refl).
  repeat constructor; cbn; lia.
Defined.

(** With the base class [property], which accepts everything: a call that
    returns 0 leaves [errno] as it was, and a call that fails returns -1
    with [errno] at [EINVAL] or at [EPROTO]. *)
Theorem parse_metadata_errno (ptr_ : list byte) (zap_flag : bool)
    (m : mechanism_t) (rc : Z) (m' : mechanism_t) :
  @parse_metadata default_mechanism ptr_ zap_flag m = Some (rc, m') ->
  (rc = 0 /\ errno m' = errno m)
  \/ (rc = -1 /\ (errno m' = EINVAL \/ errno m' = EPROTO)).
Proof.
  intros Hp.
  apply (@parse_metadata_result default_mechanism
           (fun x => errno x = errno m)
           (fun r => (r.1 = 0 /\ errno r.2 = errno m)
                     \/ (r.1 = -1 /\ (errno r.2 = EINVAL \/ errno r.2 = EPROTO)))
           zap_flag) with (r := (rc, m')) (ptr_ := ptr_) (m := m);
    [| |reflexivity|exact Hp].
  - intros name value x _ Hx. unfold handle_property.
    destruct (_ && _).
    + rewrite (proj2 (proj2 (proj2 (record_property_fields _ _ _ _)))).
      exact Hx.
    + destruct (name =? ZMTP_PROPERTY_SOCKET_TYPE)%string.
      * destruct (negb _).
        -- right. cbn. auto.
        -- rewrite (proj2 (proj2 (proj2 (record_property_fields _ _ _ _)))).
           exact Hx.
      * cbn. rewrite (proj2 (proj2 (proj2 (record_property_fields _ _ _ _)))).
        exact Hx.
  - intros x Hx. split; [left | right]; cbn; auto.
Qed.

Lemma parse_metadata_errno_witness :
  (-1 = 0 /\ errno (set_errno EPROTO req_mechanism) = errno req_mechanism)
  \/ (-1 = -1 /\ (errno (set_errno EPROTO req_mechanism) = EINVAL
                  \/ errno (set_errno EPROTO req_mechanism) = EPROTO)).
Proof.
  exact (parse_metadata_errno [x07] false req_mechanism (-1) _ eq_refl).
Defined.

(** A complete property list followed by any bytes: the call is the call on
    the list, followed, when that one returns 0, by the call on the bytes
    that follow, on the object the first one left. *)
Theorem parse_metadata_concat `{Mechanism} (ps : list (string * list byte))
    (rest : list byte) (zap_flag : bool) (m : mechanism_t) :
  Forall wire_bounded ps ->
  parse_metadata (wire_properties ps ++ rest) zap_flag m
  = match parse_metadata (wire_properties ps) zap_flag m with
    | Some (rc, m1) =>
        if rc =? 0 then parse_metadata rest zap_flag m1 else Some (rc, m1)
    | None => None
    end.
Proof.
  intros Hps.
  rewrite parse_metadata_app, parse_metadata_properties by exact Hps.
  destruct (dispatch_all zap_flag ps m); reflexivity.
Qed.

Lemma parse_metadata_concat_witness :
  parse_metadata
    (wire_properties [("a", [x62])] ++ wire_properties [("a", [x63])])
    false req_mechanism
  = Some (0, record_property false "a" [x63]
               (record_property false "a" [x62] req_mechanism)).
Proof.
  rewrite (parse_metadata_concat [("a", [x62])]
             (wire_properties [("a", [x63])]) false req_mechanism).
  - reflexivity.
  - repeat constructor; cbn; lia.
Defined.

(** [parse_metadata] only adds to the dictionaries: an entry either
    dictionary holds before the call it holds, with the same value, after
    it, however the call ends. *)
Theorem parse_metadata_keeps_entries `{Mechanism} (ptr_ : list byte)
    (zap_flag : bool) (m : mechanism_t) (rc : Z) (m' : mechanism_t)
    (name v : string) :
  parse_metadata ptr_ zap_flag m = Some (rc, m') ->
  (zap_properties m !! name = Some v -> zap_properties m' !! name = Some v)
  /\ (zmtp_properties m !! name = Some v -> zmtp_properties m' !! name = Some v).
Proof.
  intros Hp.
  pose proof (parse_metadata_other _ _ _ _ _ Hp) as Ho.
  pose proof (fun E => parse_metadata_selected_mono _ _ _ _ _ name v Hp E) as Hs.
  destruct zap_flag; cbn [selected_properties other_properties] in *.
  - split; [exact Hs | rewrite Ho; auto].
  - split; [rewrite Ho; auto | exact Hs].
Qed.

Lemma parse_metadata_keeps_entries_witness :
  zap_properties
    (record_property true "User-Id" [x62]
       (set_user_id [x61] req_mechanism)) !! "User-Id" = Some "a".
Proof.
  exact (proj1 (parse_metadata_keeps_entries
                  (wire_property ("User-Id", [x62])) true
                  (set_user_id [x61] req_mechanism) 0 _ "User-Id" "a" eq_refl)
               eq_refl).
Defined.

(** ** The encoder and the region it writes *)

(** [add_property] never writes outside the region it is given: it aborts
    when the region is shorter than 1 + |name| + 4 + |value| bytes, and when
    it returns the region has its length, starts with the property and is
    unchanged after it, and the length returned is that of the property. *)
Theorem add_property_region (ptr : list byte) (name : string)
    (value : list byte) :
  let total := 1 + Z.of_nat (String.length name) + 4 + Z.of_nat (length value) in
  (Z.of_nat (length ptr) < total -> add_property ptr name value = None)
  /\ (forall ptr' n,
        add_property ptr name value = Some (ptr', n) ->
        n = total /\ n <= Z.of_nat (length ptr)
        /\ length ptr' = length ptr
        /\ take (Z.to_nat n) ptr' = wire_property (name, value)
        /\ drop (Z.to_nat n) ptr' = drop (Z.to_nat n) ptr).
Proof.
  intros total.
  destruct (Z.le_gt_cases (Z.of_nat (String.length name)) 255) as [Hn|Hn];
    [|split; [intros _|intros ptr' n];
      rewrite add_property_abort by lia; [reflexivity | discriminate]].
  destruct (Z.le_gt_cases (Z.of_nat (length value)) (2 ^ 31 - 1)) as [Hv|Hv];
    [|split; [intros _|intros ptr' n];
      rewrite add_property_abort by lia; [reflexivity | discriminate]].
  destruct (Z.le_gt_cases total (Z.of_nat (length ptr))) as [Hc|Hc].
  - split; [lia|]. intros ptr' n.
    assert (Hlen : Z.to_nat total = length (wire_property (name, value))).
    { pose proof (length_wire_property (name, value)) as E.
      cbn [fst snd] in E. subst total. lia. }
    rewrite add_property_spec by assumption. fold total.
    intros Heq.
    assert (Hp : ptr' = wire_property (name, value) ++ drop (Z.to_nat total) ptr)
      by congruence.
    assert (Hn' : n = total) by congruence.
    clear Heq. subst ptr' n.
    split; [reflexivity|]. split; [exact Hc|].
    rewrite Hlen, take_app_length, drop_app_length.
    split; [|split; reflexivity].
    rewrite length_app, length_drop. lia.
  - assert (Hnone : add_property ptr name value = None).
    { unfold add_property, name_len.
      destruct (Z.leb_spec (Z.of_nat (String.length name)) 255); [|lia].
      cbn [zmq_assert mbind option_bind]. cbv zeta.
      rewrite property_len_small by lia. fold total.
      destruct (Z.leb_spec total (Z.of_nat (length ptr))); [lia|].
      reflexivity. }
    split; [intros _; exact Hnone|]. intros ptr' n. rewrite Hnone. discriminate.
Qed.

Lemma add_property_region_witness :
  add_property (repeat x00 5) "a" [x62] = None
  /\ (7 = 1 + Z.of_nat (String.length "a") + 4 + Z.of_nat (length [x62])
      /\ 7 <= Z.of_nat (length (repeat x00 9))
      /\ length (wire_property ("a", [x62]) ++ [x00; x00])
         = length (repeat x00 9)).
Proof.
  pose proof (add_property_region (repeat x00 5) "a" [x62]) as [Hsmall _].
  pose proof (add_property_region (repeat x00 9) "a" [x62]) as [_ Hsome].
  split.
  - apply Hsmall. vm_compute. reflexivity.
  - destruct (Hsome _ 7 eq_refl) as (Hn & Hc & Hl & _).
    split; [exact Hn|]. split; [exact Hc | exact Hl].
Defined.

(** ** The messages the mechanism fills *)

Lemma land_lor_flag (flags flag : Z) : Z.land (Z.lor flags flag) flag = flag.
Proof.
  apply Z.bits_inj'. intros i _. rewrite Z.land_spec, Z.lor_spec.
  destruct (Z.testbit flags i), (Z.testbit flag i); reflexivity.
Qed.

Lemma init_size_length `{Msg} (size_ : Z) (msg_ : msg_t) :
  (init_size size_ msg_).1 = 0 ->
  length (msg_data (init_size size_ msg_).2) = Z.to_nat size_.
Proof.
  unfold init_size. destruct (init_size_ok size_); [|discriminate].
  intros _. cbn [snd msg_data]. rewrite length_map, length_seq. reflexivity.
Qed.

Lemma init_size_rc `{Msg} (size_ : Z) (msg_ : msg_t) :
  (init_size size_ msg_).1 = if init_size_ok size_ then 0 else -1.
Proof. unfold init_size. destruct (init_size_ok size_); reflexivity. Qed.

(** [peer_routing_id] after [set_peer_routing_id]: when the allocation
    succeeds the message holds exactly the bytes of the identifier that was
    set, no more, and carries the routing-id flag; when the allocation
    fails the process is aborted. *)
Theorem peer_routing_id_roundtrip `{Msg} (msg_ : msg_t) (id : list byte)
    (m : mechanism_t) :
  (init_size_ok (Z.of_nat (length id)) = true ->
   exists msg',
     peer_routing_id msg_ (set_peer_routing_id id m) = Some msg'
     /\ msg_data msg' = id
     /\ Z.land (msg_flags msg') msg_routing_id = msg_routing_id)
  /\ (init_size_ok (Z.of_nat (length id)) = false ->
      peer_routing_id msg_ (set_peer_routing_id id m) = None).
Proof.
  unfold peer_routing_id. cbv zeta.
  change (routing_id (set_peer_routing_id id m)) with id.
  pose proof (init_size_length (Z.of_nat (length id)) msg_) as Hlen.
  rewrite init_size_rc in *.
  split; intros Hok; rewrite Hok in *; [|reflexivity].
  cbn [Z.eqb errno_assert zmq_assert mbind option_bind].
  eexists. split; [reflexivity|]. cbn [set_flags msg_data msg_flags].
  split.
  - unfold memcpy. cbn [take Nat.add app].
    rewrite drop_ge by (rewrite Hlen by reflexivity; lia).
    apply app_nil_r.
  - apply land_lor_flag.
Qed.

Lemma peer_routing_id_roundtrip_witness :
  exists msg',
    @peer_routing_id zeroed_msg empty_msg
      (set_peer_routing_id [x61; x62] req_mechanism) = Some msg'
    /\ msg_data msg' = [x61; x62]
    /\ Z.land (msg_flags msg') 64 = 64.
Proof.
  exact (proj1 (@peer_routing_id_roundtrip zeroed_msg empty_msg [x61; x62]
                  req_mechanism) eq_refl).
Defined.

(** The basic property set, as a list of properties: its length is what
    [basic_properties_len] returns and its encoding what
    [add_basic_properties] writes. *)
Lemma basic_properties_spec (m : mechanism_t) :
  0 <= Options.type (options m) <= 18 ->
  Options.routing_id_size (options m) <= 255 ->
  basic_properties_len m
  = Some (Z.of_nat (length (wire_properties (basic_property_list m))))
  /\ forall buf,
       (length (wire_properties (basic_property_list m)) <= length buf)%nat ->
       add_basic_properties buf m
       = Some (wire_properties (basic_property_list m)
               ++ drop (length (wire_properties (basic_property_list m))) buf,
               Z.of_nat (length (wire_properties (basic_property_list m)))).
Proof.
  intros Htype Hrid. unfold Options.routing_id_size in Hrid.
  destruct (socket_type_string_valid _ Htype) as (name & Hs & Hin).
  apply socket_type_name_short in Hin.
  unfold basic_property_list. rewrite Hs.
  set (rid := Options.routing_id (options m)) in *.
  set (w1 := wire_property (ZMTP_PROPERTY_SOCKET_TYPE, list_byte_of_string name)).
  set (w2 := wire_property (ZMTP_PROPERTY_IDENTITY, rid)).
  assert (Hw1 : Z.of_nat (length w1) = 16 + Z.of_nat (String.length name)).
  { subst w1. rewrite length_wire_property. cbn [fst snd].
    rewrite length_list_byte_of_string. cbn. lia. }
  assert (Hw2 : Z.of_nat (length w2) = 13 + Z.of_nat (length rid)).
  { subst w2. rewrite length_wire_property. cbn. lia. }
  assert (Hbytes : wire_properties
                     ((ZMTP_PROPERTY_SOCKET_TYPE, list_byte_of_string name)
                      :: (if has_identity_property (options m)
                          then [(ZMTP_PROPERTY_IDENTITY, rid)] else []))
                   = w1 ++ (if has_identity_property (options m)
                            then w2 else [])).
  { unfold wire_properties. destruct (has_identity_property (options m));
      cbn [map concat]; fold w1; fold w2; rewrite ?app_nil_r; reflexivity. }
  rewrite Hbytes. split.
  { unfold basic_properties_len. rewrite Hs.
    cbn [mbind option_bind]. unfold mechanism_property_len.
    rewrite name_len_socket_type.
    cbn [mbind option_bind]. rewrite property_len_small by lia.
    unfold Options.routing_id_size. fold rid. rewrite length_app.
    destruct (has_identity_property (options m)).
    - rewrite name_len_identity.
      cbn [mbind option_bind]. rewrite property_len_small by lia.
      rewrite size_t_wrap_small by lia. f_equal. lia.
    - cbn [mbind option_bind length]. rewrite size_t_wrap_small by lia.
      f_equal. lia. }
  intros buf Hcap. rewrite length_app in Hcap.
  unfold add_basic_properties. rewrite Hs. cbn [mbind option_bind].
  rewrite add_property_spec; cycle 1.
  { cbn. lia. }
  { rewrite length_list_byte_of_string. lia. }
  { rewrite length_list_byte_of_string. cbn. lia. }
  cbn [mbind option_bind fst snd]. fold w1.
  rewrite length_list_byte_of_string.
  change (String.length ZMTP_PROPERTY_SOCKET_TYPE) with 11%nat.
  replace (Z.to_nat (1 + Z.of_nat 11 + 4 + Z.of_nat (String.length name)))
    with (length w1) by lia.
  revert Hcap.
  destruct (has_identity_property (options m)); intros Hcap.
  - rewrite drop_app_length, take_app_length. fold rid.
    change (String.length ZMTP_PROPERTY_IDENTITY) with 8%nat in *.
    rewrite add_property_spec; cycle 1.
    { change (String.length ZMTP_PROPERTY_IDENTITY) with 8%nat. lia. }
    { lia. }
    { rewrite length_drop.
      change (String.length ZMTP_PROPERTY_IDENTITY) with 8%nat. lia. }
    cbn [mbind option_bind fst snd]. fold w2.
    change (String.length ZMTP_PROPERTY_IDENTITY) with 8%nat.
    replace (Z.to_nat (1 + Z.of_nat 8 + 4 + Z.of_nat (length rid)))
      with (length w2) by lia.
    rewrite drop_drop, <- app_assoc, length_app.
    f_equal. f_equal. lia.
  - rewrite !app_nil_r. f_equal. f_equal. lia.
Qed.


Lemma make_command_spec `{Msg} (msg_ : msg_t) (prefix : list byte)
    (m : mechanism_t) :
  0 <= Options.type (options m) <= 18 ->
  Options.routing_id_size (options m) <= 255 ->
  Z.of_nat (length prefix)
  + Z.of_nat (length (wire_properties (basic_property_list m))) < 2 ^ 64 ->
  make_command_with_basic_properties msg_ prefix m
  = if init_size_ok
         (Z.of_nat (length prefix)
          + Z.of_nat (length (wire_properties (basic_property_list m))))
    then Some (mk_msg (prefix ++ wire_properties (basic_property_list m)) 0)
    else None.
Proof.
  intros Htype Hrid Hsize.
  destruct (basic_properties_spec m Htype Hrid) as [Hlen Hadd].
  set (bytes := wire_properties (basic_property_list m)) in *.
  unfold make_command_with_basic_properties. rewrite Hlen.
  cbn [mbind option_bind]. cbv zeta.
  rewrite size_t_wrap_small by lia.
  set (size := Z.of_nat (length prefix) + Z.of_nat (length bytes)).
  unfold init_size. destruct (init_size_ok size); [|reflexivity].
  cbn [fst snd Z.eqb errno_assert zmq_assert mbind option_bind msg_data
       msg_flags].
  set (fresh := map (init_size_byte size) (seq 0 (Z.to_nat size))).
  assert (Hfresh : length fresh = (length prefix + length bytes)%nat)
    by (subst fresh size; rewrite length_map, length_seq; lia).
  unfold memcpy. cbn [Nat.add]. rewrite take_0. cbn [app].
  rewrite drop_app_length, take_app_length.
  rewrite Hadd by (rewrite length_drop; lia).
  cbn [mbind option_bind fst].
  rewrite drop_drop, drop_ge by lia. rewrite app_nil_r. reflexivity.
Qed.

(** [make_command_with_basic_properties] on a valid configuration: the
    message has exactly [prefix_len + basic_properties_len ()] bytes, the
    prefix followed by the encoding of the basic properties, and no flag;
    when the allocation fails the process is aborted. *)
Theorem make_command_layout `{Msg} (msg_ : msg_t) (prefix : list byte)
    (m : mechanism_t) (n : Z) :
  0 <= Options.type (options m) <= 18 ->
  Options.routing_id_size (options m) <= 255 ->
  basic_properties_len m = Some n ->
  Z.of_nat (length prefix) + n < 2 ^ 64 ->
  (init_size_ok (Z.of_nat (length prefix) + n) = true ->
   exists msg',
     make_command_with_basic_properties msg_ prefix m = Some msg'
     /\ msg_data msg' = prefix ++ wire_properties (basic_property_list m)
     /\ Z.of_nat (length (msg_data msg')) = Z.of_nat (length prefix) + n
     /\ msg_flags msg' = 0)
  /\ (init_size_ok (Z.of_nat (length prefix) + n) = false ->
      make_command_with_basic_properties msg_ prefix m = None).
Proof.
  intros Htype Hrid Hn Hsize.
  destruct (basic_properties_spec m Htype Hrid) as [Hlen _].
  rewrite Hlen in Hn. injection Hn as <-.
  rewrite make_command_spec by assumption.
  split; intros ->; [|reflexivity].
  eexists. split; [reflexivity|]. cbn [msg_data msg_flags].
  split; [reflexivity|]. split; [|reflexivity].
  rewrite length_app. lia.
Qed.

Lemma make_command_layout_witness :
  exists msg',
    @make_command_with_basic_properties zeroed_msg empty_msg
      (list_byte_of_string "READY") router_mechanism = Some msg'
    /\ msg_data msg'
       = list_byte_of_string "READY"
         ++ wire_properties [("Socket-Type", list_byte_of_string "ROUTER");
                             ("Identity", [x61; x62; x63])]
    /\ Z.of_nat (length (msg_data msg')) = 5 + 38.
Proof.
  destruct (@make_command_layout zeroed_msg empty_msg
              (list_byte_of_string "READY") router_mechanism 38)
    as [Hok _].
  - vm_compute. split; discriminate.
  - vm_compute. discriminate.
  - reflexivity.
  - vm_compute. reflexivity.
  - destruct (Hok eq_refl) as (msg' & Hm & Hd & Hl & _).
    exists msg'. split; [exact Hm|]. split; [exact Hd | exact Hl].
Defined.



(** ** The encoding is unambiguous *)

Lemma list_byte_of_string_inj (s1 s2 : string) :
  list_byte_of_string s1 = list_byte_of_string s2 -> s1 = s2.
Proof.
  intros E. rewrite <- (string_of_list_byte_of_string s1),
    <- (string_of_list_byte_of_string s2), E. reflexivity.
Qed.

(** No encoded property is the beginning of another: two ranges that start
    with a property and are equal start with the same property. *)
Lemma wire_property_prefix_free (p1 p2 : string * list byte)
    (r1 r2 : list byte) :
  wire_bounded p1 -> wire_bounded p2 ->
  wire_property p1 ++ r1 = wire_property p2 ++ r2 ->
  p1 = p2 /\ r1 = r2.
Proof.
  destruct p1 as [n1 v1], p2 as [n2 v2]. intros [Hn1 Hv1] [Hn2 Hv2].
  cbn [fst snd] in *. unfold wire_property. cbn [fst snd].
  rewrite <- !app_comm_cons, <- !app_assoc. intros E.
  injection E as Eb E.
  assert (Hlen : String.length n1 = String.length n2).
  { apply (f_equal byte_to_Z) in Eb. rewrite !byte_to_of_Z in Eb by lia. lia. }
  apply app_inj_1 in E; [|rewrite !length_list_byte_of_string; exact Hlen].
  destruct E as [En E]. apply list_byte_of_string_inj in En. subst n2.
  assert (E' : put_uint32 (Z.of_nat (length v1)) ++ v1 ++ r1
               = put_uint32 (Z.of_nat (length v2)) ++ v2 ++ r2) by exact E.
  clear E. rename E' into E.
  assert (Hv : length v1 = length v2).
  { pose proof (f_equal get_uint32 E) as G.
    rewrite !get_put_uint32 in G by lia. lia. }
  rewrite Hv in E. apply app_inv_head in E.
  apply app_inj_1 in E; [|exact Hv]. destruct E as [-> ->]. auto.
Qed.

(** Two property lists with the same encoding are the same list. *)
Lemma wire_properties_injective (ps1 ps2 : list (string * list byte)) :
  Forall wire_bounded ps1 -> Forall wire_bounded ps2 ->
  wire_properties ps1 = wire_properties ps2 ->
  ps1 = ps2.
Proof.
  intros H1. revert ps2.
  induction H1 as [|p1 ps1 Hp1 H1 IH]; intros ps2 H2 E.
  - destruct H2 as [|p2 ps2 Hp2 H2]; [reflexivity|].
    unfold wire_properties in E. cbn [map concat] in E.
    unfold wire_property in E. discriminate.
  - destruct H2 as [|p2 ps2 Hp2 H2].
    + unfold wire_properties in E. cbn [map concat] in E.
      unfold wire_property in E. discriminate.
    + unfold wire_properties in E. cbn [map concat] in E.
      apply wire_property_prefix_free in E; [|assumption|assumption].
      destruct E as [-> E]. f_equal. apply IH; assumption.
Qed.

Lemma add_property_inv (ptr : list byte) (name : string) (value : list byte)
    (ptr' : list byte) (n : Z) :
  add_property ptr name value = Some (ptr', n) ->
  well_formed (name, value)
  /\ n = Z.of_nat (length (wire_property (name, value)))
  /\ n <= Z.of_nat (length ptr)
  /\ ptr' = wire_property (name, value) ++ drop (Z.to_nat n) ptr.
Proof.
  intros Hadd. rewrite length_wire_property. cbn [fst snd].
  destruct (Z.le_gt_cases (Z.of_nat (String.length name)) 255) as [Hn|Hn];
    [|rewrite add_property_abort in Hadd by lia; discriminate].
  destruct (Z.le_gt_cases (Z.of_nat (length value)) (2 ^ 31 - 1)) as [Hv|Hv];
    [|rewrite add_property_abort in Hadd by lia; discriminate].
  destruct (Z.le_gt_cases
              (1 + Z.of_nat (String.length name) + 4 + Z.of_nat (length value))
              (Z.of_nat (length ptr))) as [Hc|Hc].
  - rewrite add_property_spec in Hadd by assumption.
    assert (Hp : ptr' = wire_property (name, value)
                        ++ drop (Z.to_nat (1 + Z.of_nat (String.length name) + 4
                                           + Z.of_nat (length value))) ptr)
      by congruence.
    assert (Hn' : n = 1 + Z.of_nat (String.length name) + 4
                      + Z.of_nat (length value)) by congruence.
    subst n. split; [split; assumption|]. auto.
  - exfalso. revert Hadd. unfold add_property, name_len.
    destruct (Z.leb_spec (Z.of_nat (String.length name)) 255); [|lia].
    cbn [zmq_assert mbind option_bind]. cbv zeta.
    rewrite property_len_small by lia.
    destruct (Z.leb_spec
                (1 + Z.of_nat (String.length name) + 4 + Z.of_nat (length value))
                (Z.of_nat (length ptr))); [lia|].
    discriminate.
Qed.

(** What [add_property] writes can be told apart: when the bytes written by
    two calls, each followed by any bytes, make the same range, the two
    calls encoded the same name and the same value, and the bytes that
    follow are the same. *)
Theorem add_property_prefix_free (ptr1 ptr2 : list byte) (name1 name2 : string)
    (value1 value2 : list byte) (r1 r2 : list byte) (n1 n2 : Z)
    (s1 s2 : list byte) :
  add_property ptr1 name1 value1 = Some (r1, n1) ->
  add_property ptr2 name2 value2 = Some (r2, n2) ->
  take (Z.to_nat n1) r1 ++ s1 = take (Z.to_nat n2) r2 ++ s2 ->
  name1 = name2 /\ value1 = value2 /\ s1 = s2.
Proof.
  intros H1 H2.
  apply add_property_inv in H1, H2.
  destruct H1 as (Hw1 & -> & _ & ->). destruct H2 as (Hw2 & -> & _ & ->).
  rewrite !Nat2Z.id, !take_app_length. intros E.
  apply wire_property_prefix_free in E;
    [|apply well_formed_wire_bounded; assumption
     |apply well_formed_wire_bounded; assumption].
  destruct E as [[= -> ->] ->]. auto.
Qed.

Lemma add_property_prefix_free_witness :
  "ab" = "ab" /\ [x63] = [x63] /\ [x07] = [x07].
Proof.
  refine (add_property_prefix_free (repeat x00 8) (repeat x01 9) "ab" "ab"
            [x63] [x63] _ _ 8 8 [x07] [x07] eq_refl eq_refl eq_refl).
Defined.

(** ** Which ranges are accepted *)

Lemma testbit_byte_high (b : byte) (i : Z) :
  8 <= i -> Z.testbit (byte_to_Z b) i = false.
Proof.
  intros Hi. pose proof (byte_to_Z_range b) as Hb.
  destruct (Z.eq_dec (byte_to_Z b) 0) as [->|Hne]; [apply Z.bits_0|].
  apply Z.bits_above_log2; [lia|].
  assert (Z.log2 (byte_to_Z b) < 8) by (apply Z.log2_lt_pow2; lia). lia.
Qed.

Lemma get_uint32_testbit (a b c d : byte) (rest : list byte) (i : Z) :
  0 <= i ->
  Z.testbit (get_uint32 (a :: b :: c :: d :: rest)) i
  = Z.testbit (byte_to_Z a) (i - 24) || Z.testbit (byte_to_Z b) (i - 16)
    || Z.testbit (byte_to_Z c) (i - 8) || Z.testbit (byte_to_Z d) i.
Proof.
  intros Hi. rewrite get_uint32_bytes.
  rewrite !Z.lor_spec, !Z.shiftl_spec by lia. reflexivity.
Qed.

Ltac byte_bit_off :=
  repeat match goal with
         | |- context [Z.testbit (byte_to_Z ?b) ?j] =>
             first [ rewrite (testbit_byte_high b j) by lia
                   | rewrite (Z.testbit_neg_r (byte_to_Z b) j) by lia ]
         end.

Lemma get_uint32_extract (a b c d : byte) (rest : list byte) (k : Z) (x : byte) :
  0 <= k ->
  (forall i, 0 <= i < 8 ->
     Z.testbit (get_uint32 (a :: b :: c :: d :: rest)) (i + k)
     = Z.testbit (byte_to_Z x) i) ->
  byte_of_Z (Z.land (Z.shiftr (get_uint32 (a :: b :: c :: d :: rest)) k) 255) = x.
Proof.
  intros Hk Hbits. rewrite <- (byte_of_to_Z x). f_equal.
  apply Z.bits_inj'. intros i Hi.
  rewrite testbit_land_255, Z.shiftr_spec by lia.
  destruct (Z.ltb_spec i 8).
  - rewrite Hbits by lia. apply andb_true_r.
  - rewrite andb_false_r. symmetry. apply testbit_byte_high. lia.
Qed.

Lemma put_get_uint32 (a b c d : byte) (rest : list byte) :
  put_uint32 (get_uint32 (a :: b :: c :: d :: rest)) = [a; b; c; d].
Proof.
  unfold put_uint32.
  rewrite <- (Z.shiftr_0_r (get_uint32 (a :: b :: c :: d :: rest))) at 4.
  rewrite (get_uint32_extract a b c d rest 24 a),
    (get_uint32_extract a b c d rest 16 b),
    (get_uint32_extract a b c d rest 8 c),
    (get_uint32_extract a b c d rest 0 d); try lia; try reflexivity.
  - intros i Hi. rewrite get_uint32_testbit by lia.
    replace (i + 0) with i by lia. byte_bit_off. reflexivity.
  - intros i Hi. rewrite get_uint32_testbit by lia.
    replace (i + 8 - 8) with i by lia. byte_bit_off.
    rewrite orb_false_r. reflexivity.
  - intros i Hi. rewrite get_uint32_testbit by lia.
    replace (i + 16 - 16) with i by lia. byte_bit_off.
    rewrite !orb_false_r. reflexivity.
  - intros i Hi. rewrite get_uint32_testbit by lia.
    replace (i + 24 - 24) with i by lia. byte_bit_off.
    rewrite !orb_false_r. reflexivity.
Qed.

Section Decode.
Context `{Mechanism}.

(** One run of the body, read backwards: a [break] with the counter above 0
    or on a cut header, or the dispatch of a property the range starts
    with. *)
Lemma loop_body_decode zap_flag ptr_ m :
  (1 < length ptr_)%nat ->
  (exists bytes_left,
     loop_body zap_flag ptr_ (Z.of_nat (length ptr_)) m = Break bytes_left m
     /\ (0 < bytes_left \/ bytes_left = 0 /\ cut_header ptr_))
  \/ (exists p ptr',
        wire_bounded p /\ ptr_ = wire_property p ++ ptr'
        /\ loop_body zap_flag ptr_ (Z.of_nat (length ptr_)) m
           = match handle_property p.1 p.2 m with
             | inr m' => Return (-1) m'
             | inl m' =>
                 Continue ptr' (Z.of_nat (length ptr'))
                          (record_property zap_flag p.1 p.2 m')
             end).
Proof.
  intros Hlen. destruct ptr_ as [|b t]; [cbn in Hlen; lia|].
  cbn [length] in Hlen.
  unfold loop_body. cbv zeta. cbn [nth drop length]. rewrite drop_0.
  pose proof (byte_to_Z_range b) as Hb.
  set (nl := byte_to_Z b) in *.
  destruct (Z.ltb_spec (Z.of_nat (S (length t)) - 1) nl) as [H1|H1].
  { left. eexists. split; [reflexivity|]. left. lia. }
  remember (take (Z.to_nat nl) t) as nb eqn:Enb.
  remember (drop (Z.to_nat nl) t) as t2 eqn:Et2.
  assert (Ht : t = nb ++ t2) by (subst nb t2; symmetry; apply take_drop).
  assert (Hnb : length nb = Z.to_nat nl) by (subst nb; rewrite length_take; lia).
  clear Enb Et2. subst t. rewrite length_app in *.
  set (name := string_of_list_byte nb).
  assert (Hname : String.length name = Z.to_nat nl)
    by (subst name; rewrite length_string_of_list_byte; exact Hnb).
  assert (Hbytes : list_byte_of_string name = nb)
    by apply list_byte_of_string_of_list_byte.
  assert (Hhd : byte_of_Z (Z.of_nat (String.length name)) = b).
  { rewrite Hname, Z2Nat.id by lia. apply byte_of_to_Z. }
  destruct (Z.ltb_spec (Z.of_nat (S (length nb + length t2)) - 1 - nl) 4)
    as [H2|H2].
  { left. eexists. split; [reflexivity|].
    destruct (Z.eq_dec (Z.of_nat (S (length nb + length t2)) - 1 - nl) 0)
      as [E|E]; [|left; lia].
    right. split; [exact E|].
    exists (name, []). split; [split; cbn [fst snd length]; lia|].
    left. cbn [fst snd]. split; [lia|].
    assert (t2 = []) by (apply length_zero_iff_nil; lia). subst t2.
    unfold wire_property. cbn [fst snd Nat.add take].
    rewrite Hhd, Hbytes. f_equal.
    rewrite Hname, <- Hnb, take_app_length, app_nil_r. reflexivity. }
  destruct t2 as [|a0 [|a1 [|a2 [|a3 t3]]]];
    try (cbn [length] in H2; lia).
  set (vl := get_uint32 (a0 :: a1 :: a2 :: a3 :: t3)).
  pose proof (get_uint32_range (a0 :: a1 :: a2 :: a3 :: t3)) as Hvl.
  fold vl in Hvl. cbn [drop]. rewrite drop_0.
  cbn [length] in *.
  assert (Hput : put_uint32 vl = [a0; a1; a2; a3]) by apply put_get_uint32.
  destruct (Z.ltb_spec
              (Z.of_nat (S (length nb + S (S (S (S (length t3)))))) - 1 - nl - 4)
              vl) as [H3|H3].
  { left. eexists. split; [reflexivity|].
    destruct (Z.eq_dec
                (Z.of_nat (S (length nb + S (S (S (S (length t3)))))) - 1 - nl - 4)
                0) as [E|E]; [|left; lia].
    right. split; [exact E|].
    exists (name, repeat x00 (Z.to_nat vl)).
    split; [split; cbn [fst snd]; rewrite ?repeat_length; lia|].
    right. cbn [fst snd]. rewrite repeat_length. split; [lia|].
    assert (t3 = []) by (apply length_zero_iff_nil; lia). subst t3.
    unfold wire_property. cbn [fst snd Nat.add take].
    rewrite Hhd, Hbytes, repeat_length, Z2Nat.id, Hput by lia. f_equal.
    rewrite Hname, <- Hnb.
    replace (S (S (S (S (length nb))))) with (length nb + 4)%nat by lia.
    rewrite take_app_add. reflexivity. }
  right.
  remember (take (Z.to_nat vl) t3) as value eqn:Evalue.
  remember (drop (Z.to_nat vl) t3) as ptr' eqn:Eptr.
  assert (Ht3 : t3 = value ++ ptr') by (subst value ptr'; symmetry; apply take_drop).
  assert (Hvalue : length value = Z.to_nat vl)
    by (subst value; rewrite length_take; lia).
  exists (name, value), ptr'. cbn [fst snd].
  split; [split; cbn [fst snd]; lia|]. split.
  - unfold wire_property. cbn [fst snd].
    rewrite Hhd, Hbytes, Hvalue, Z2Nat.id, Hput by lia.
    rewrite <- app_comm_cons. f_equal. rewrite <- !app_assoc. f_equal.
    cbn [app]. do 4 f_equal. exact Ht3.
  - destruct (handle_property name value m); [|reflexivity].
    f_equal. rewrite Ht3, length_app. lia.
Qed.

End Decode.

(** The ranges on which [parse_metadata] returns 0 are exactly these: a list
    of complete properties that the dispatch all accepts, followed by
    nothing, or by the beginning of one more property cut right after its
    name or right after its value length; the object is then the one the
    dispatch of the complete properties leaves. *)
Theorem parse_metadata_accepts `{Mechanism} (ptr_ : list byte)
    (zap_flag : bool) (m m' : mechanism_t) :
  parse_metadata ptr_ zap_flag m = Some (0, m')
  <-> exists ps tail,
        Forall wire_bounded ps
        /\ ptr_ = wire_properties ps ++ tail
        /\ dispatch_all zap_flag ps m = inl m'
        /\ (tail = [] \/ cut_header tail).
Proof.
  split.
  - remember (length ptr_) as n eqn:En. revert ptr_ En m.
    induction n as [n IH] using lt_wf_ind. intros ptr_ En m.
    destruct (Nat.le_gt_cases (length ptr_) 1) as [Hshort|Hlong].
    { rewrite parse_metadata_short by exact Hshort.
      destruct (Z.ltb_spec 0 (Z.of_nat (length ptr_))); [discriminate|].
      intros [= <-]. exists [], []. split; [constructor|].
      split; [|split; [reflexivity | left; reflexivity]].
      apply length_zero_iff_nil. lia. }
    rewrite parse_metadata_step by exact Hlong.
    destruct (loop_body_decode zap_flag ptr_ m Hlong)
      as [(b & E & Hb)|(p & ptr' & Hp & Eptr & E)]; rewrite E.
    { destruct (Z.ltb_spec 0 b); [discriminate|]. intros [= <-].
      destruct Hb as [Hb|[_ Hcut]]; [lia|].
      exists [], ptr_. split; [constructor|]. split; [reflexivity|].
      split; [reflexivity | right; exact Hcut]. }
    destruct (handle_property p.1 p.2 m) as [m1|m1] eqn:Eh; [|discriminate].
    intros Hrec.
    assert (Hlt : (length ptr' < n)%nat).
    { subst n ptr_. rewrite length_app.
      pose proof (length_wire_property p). lia. }
    destruct (IH _ Hlt ptr' eq_refl _ Hrec) as (ps & tail & Hps & Etail & Hd & Ht).
    exists (p :: ps), tail. split; [constructor; assumption|]. split.
    + rewrite Eptr, Etail. unfold wire_properties. cbn [map concat].
      rewrite app_assoc. reflexivity.
    + split; [|exact Ht]. cbn [dispatch_all]. rewrite Eh. exact Hd.
  - intros (ps & tail & Hps & -> & Hd & Ht).
    rewrite parse_metadata_app, Hd by exact Hps.
    destruct Ht as [->|(p & Hp & [[Hpos ->]|[Hpos ->]])].
    + reflexivity.
    + apply parse_metadata_cut_after_name; assumption.
    + apply parse_metadata_cut_after_length; assumption.
Qed.

Lemma parse_metadata_accepts_witness :
  exists ps tail,
    Forall wire_bounded ps
    /\ wire_property ("a", [x62]) ++ [x01; x63]
       = wire_properties ps ++ tail
    /\ dispatch_all false ps req_mechanism
       = inl (record_property false "a" [x62] req_mechanism)
    /\ (tail = [] \/ cut_header tail).
Proof.
  exact (proj1 (parse_metadata_accepts
                  (wire_property ("a", [x62]) ++ [x01; x63]) false
                  req_mechanism _) eq_refl).
Defined.

(** ** When the hook is consulted *)

Lemma handle_property_ext (H1 H2 : Mechanism) name value m :
  (name <> ZMTP_PROPERTY_SOCKET_TYPE ->
   (name = ZMTP_PROPERTY_IDENTITY ->
    Options.recv_routing_id (options m) = false) ->
   @property H1 name value = @property H2 name value) ->
  @handle_property H1 name value m = @handle_property H2 name value m.
Proof.
  intros Hext. unfold handle_property.
  destruct (String.eqb_spec name ZMTP_PROPERTY_IDENTITY) as [Ei|Ei];
    cbn [andb].
  - destruct (Options.recv_routing_id (options m)) eqn:Er; [reflexivity|].
    destruct (String.eqb_spec name ZMTP_PROPERTY_SOCKET_TYPE) as [Es|Es];
      [reflexivity|].
    cbv zeta. rewrite Hext by auto. reflexivity.
  - destruct (String.eqb_spec name ZMTP_PROPERTY_SOCKET_TYPE) as [Es|Es];
      [reflexivity|].
    cbv zeta. rewrite Hext by (auto; intros; contradiction). reflexivity.
Qed.

(** The [property] hook is not consulted for a "Socket-Type" property, nor
    for an "Identity" property when receiving the peer routing id is
    enabled: two overrides that agree on every other property give the same
    result on every range. *)
Theorem parse_metadata_hook_scope (H1 H2 : Mechanism) (ptr_ : list byte)
    (zap_flag : bool) (m : mechanism_t) :
  (forall name value,
     name <> ZMTP_PROPERTY_SOCKET_TYPE ->
     (name = ZMTP_PROPERTY_IDENTITY ->
      Options.recv_routing_id (options m) = false) ->
     @property H1 name value = @property H2 name value) ->
  @parse_metadata H1 ptr_ zap_flag m = @parse_metadata H2 ptr_ zap_flag m.
Proof.
  intros Hext.
  assert (Hgen : forall n ptr_ m1,
             length ptr_ = n -> options m1 = options m ->
             @parse_metadata H1 ptr_ zap_flag m1
             = @parse_metadata H2 ptr_ zap_flag m1).
  { induction n as [n IH] using lt_wf_ind. intros p m1 En Ho.
    destruct (Nat.le_gt_cases (length p) 1) as [Hshort|Hlong].
    { rewrite !parse_metadata_short by exact Hshort. reflexivity. }
    rewrite !parse_metadata_step by exact Hlong.
    assert (Hbody : @loop_body H1 zap_flag p (Z.of_nat (length p)) m1
                    = @loop_body H2 zap_flag p (Z.of_nat (length p)) m1).
    { unfold loop_body. cbv zeta.
      rewrite (handle_property_ext H1 H2); [reflexivity|].
      rewrite Ho. apply Hext. }
    rewrite <- Hbody.
    destruct (@loop_body H1 zap_flag p (Z.of_nat (length p)) m1)
      as [ptr' b m2| |] eqn:E; try reflexivity.
    pose proof (@loop_body_decreases H1 _ _ _ _ _ _ _ E) as Hd.
    pose proof (@loop_body_cursor H1 _ _ _ _ _ _ E) as Hc.
    apply (IH (length ptr')); [lia | reflexivity|].
    destruct (@loop_body_inv H1 zap_flag p (Z.of_nat (length p)) m1)
      as [(b' & Eb)|(name & value & q & b' & _ & Ec)];
      [rewrite Eb in E; discriminate|].
    rewrite Ec in E.
    pose proof (@handle_property_frame H1 name value m1) as Hf.
    destruct (@handle_property H1 name value m1) as [x|x]; [|discriminate].
    injection E as _ _ <-. rewrite record_property_options.
    destruct Hf as [-> _]. exact Ho. }
  apply (Hgen (length ptr_)); reflexivity.
Qed.

Lemma parse_metadata_hook_scope_witness :
  @parse_metadata refusing_mechanism
    (wire_properties [("Socket-Type", list_byte_of_string "REP");
                      ("Identity", [x61])]) false req_mechanism
  = @parse_metadata
      {| property := fun name value =>
           if (name =? "Socket-Type")%string || (name =? "Identity")%string
           then (-1, Some 1) else @property refusing_mechanism name value |}
      (wire_properties [("Socket-Type", list_byte_of_string "REP");
                        ("Identity", [x61])]) false req_mechanism.
Proof.
  apply parse_metadata_hook_scope.
  intros name value Hs Hi. cbn [property].
  destruct (String.eqb_spec name "Socket-Type") as [E|_]; [contradiction|].
  destruct (String.eqb_spec name "Identity") as [E|_].
  - specialize (Hi E). discriminate.
  - reflexivity.
Defined.

(** ** The user identifier, once set *)

(** After [set_user_id] on an object whose [zap_properties] had no "User-Id"
    entry, no later [parse_metadata], whatever the bytes, the flag and the
    outcome, changes the stored user identifier or the "User-Id" entry. *)
Theorem set_user_id_persists `{Mechanism} (data_ : list byte)
    (ptr_ : list byte) (zap_flag : bool) (m : mechanism_t) (rc : Z)
    (m' : mechanism_t) :
  zap_properties m !! ZMQ_MSG_PROPERTY_USER_ID = None ->
  parse_metadata ptr_ zap_flag (set_user_id data_ m) = Some (rc, m') ->
  get_user_id m' = data_
  /\ zap_properties m' !! ZMQ_MSG_PROPERTY_USER_ID
     = Some (string_of_list_byte data_).
Proof.
  intros Hnone Hp. split.
  - apply (parse_metadata_invariant
             (fun x => user_id x = data_) zap_flag)
      with (r := (rc, m')) (ptr_ := ptr_) (m := set_user_id data_ m);
      [| |reflexivity|exact Hp].
    + intros name value x _ Hx.
      pose proof (handle_property_frame name value x) as Hf.
      destruct (handle_property name value x) as [x'|x'];
        destruct Hf as (_ & _ & _ & Hu).
      * rewrite (proj1 (proj2 (proj2 (record_property_fields _ _ _ _)))).
        congruence.
      * congruence.
    + intros x Hx. exact Hx.
  - assert (Hset : zap_properties (set_user_id data_ m)
                     !! ZMQ_MSG_PROPERTY_USER_ID
                   = Some (string_of_list_byte data_)).
    { unfold set_user_id.
      cbn [zap_properties set_zap_properties set_user_id_blob].
      rewrite dict_insert_lookup, Hnone, String.eqb_refl. reflexivity. }
    pose proof (parse_metadata_other _ _ _ _ _ Hp) as Ho.
    pose proof (parse_metadata_selected_mono _ _ _ _ _
                  ZMQ_MSG_PROPERTY_USER_ID (string_of_list_byte data_) Hp) as Hs.
    destruct zap_flag; cbn [selected_properties other_properties] in *.
    + apply Hs. exact Hset.
    + rewrite Ho. exact Hset.
Qed.

Lemma set_user_id_persists_witness :
  get_user_id
    (record_property true "User-Id" [x62] (set_user_id [x61] req_mechanism))
  = [x61]
  /\ zap_properties
       (record_property true "User-Id" [x62] (set_user_id [x61] req_mechanism))
     !! "User-Id" = Some "a".
Proof.
  exact (set_user_id_persists [x61] (wire_property ("User-Id", [x62])) true
           req_mechanism 0 _ eq_refl eq_refl).
Defined.

(** ** Regions that are too small, and role names *)

Lemma add_property_small (ptr : list byte) (name : string) (value : list byte) :
  Z.of_nat (length ptr) < Z.of_nat (length (wire_property (name, value))) ->
  add_property ptr name value = None.
Proof.
  intros Hsmall. destruct (add_property ptr name value) as [[r k]|] eqn:E;
    [|reflexivity].
  apply add_property_inv in E. destruct E as (_ & -> & Hle & _). lia.
Qed.

(** On a valid configuration [add_basic_properties] returns exactly when the
    region has at least [basic_properties_len ()] bytes; on a smaller region
    it aborts, also when the first property alone would fit. *)
Theorem add_basic_properties_room (buf : list byte) (m : mechanism_t) (n : Z) :
  0 <= Options.type (options m) <= 18 ->
  Options.routing_id_size (options m) <= 255 ->
  basic_properties_len m = Some n ->
  (Z.of_nat (length buf) < n <-> add_basic_properties buf m = None).
Proof.
  intros Htype Hrid Hn.
  destruct (basic_properties_spec m Htype Hrid) as [Hlen Hadd].
  rewrite Hlen in Hn. injection Hn as <-.
  split.
  - intros Hsmall.
    destruct (socket_type_string_valid _ Htype) as (name & Hs & _).
    revert Hsmall. unfold basic_property_list, add_basic_properties.
    rewrite Hs. cbn [mbind option_bind]. unfold wire_properties.
    cbn [map concat]. rewrite length_app. intros Hsmall.
    set (w1 := wire_property (ZMTP_PROPERTY_SOCKET_TYPE,
                              list_byte_of_string name)) in *.
    destruct (add_property buf ZMTP_PROPERTY_SOCKET_TYPE
                (list_byte_of_string name)) as [[r k]|] eqn:E1;
      [|reflexivity].
    apply add_property_inv in E1. fold w1 in E1.
    destruct E1 as (_ & -> & Hle & ->).
    cbn [mbind option_bind fst snd]. rewrite Nat2Z.id.
    rewrite drop_app_length.
    destruct (has_identity_property (options m));
      [|cbn [map concat length] in Hsmall; lia].
    cbn [map concat] in Hsmall. rewrite app_nil_r in Hsmall.
    rewrite add_property_small; [reflexivity|].
    rewrite length_drop. lia.
  - intros Hnone.
    destruct (Z.lt_ge_cases
                (Z.of_nat (length buf))
                (Z.of_nat (length (wire_properties (basic_property_list m)))))
      as [Hlt|Hge]; [exact Hlt|].
    rewrite Hadd in Hnone by lia. discriminate.
Qed.

Lemma add_basic_properties_room_witness :
  add_basic_properties (repeat x00 30) router_mechanism = None.
Proof.
  apply (proj1 (add_basic_properties_room (repeat x00 30) router_mechanism 38
                  ltac:(vm_compute; split; discriminate)
                  ltac:(vm_compute; discriminate)
                  eq_refl)).
  vm_compute. reflexivity.
Defined.

(** A role name names one role: two role codes with the same name are the
    same code. *)
Theorem socket_type_string_injective (a b : Z) (name : string) :
  socket_type_string a = Some name ->
  socket_type_string b = Some name ->
  a = b.
Proof.
  intros Ha Hb. apply socket_type_string_inv in Ha, Hb.
  destruct Ha as [Hra Ea]. destruct Hb as [Hrb Eb].
  rewrite Ea in Eb. clear Ea. revert Eb.
  split_role a Ha; split_role b Hb; cbn; intros E;
    first [reflexivity | discriminate E].
Qed.

Lemma socket_type_string_injective_witness : ZMQ_ROUTER = 6.
Proof.
  exact (socket_type_string_injective ZMQ_ROUTER 6 "ROUTER" eq_refl eq_refl).
Defined.

(** ** Ranges shorter than a property *)

(** A range of fewer than 5 bytes, the length of the shortest property,
    never reaches the dispatch: the call returns 0 with the object as it
    was, or -1 with only [errno] changed, to [EPROTO]; it returns 0 on the
    empty range and -1 on a range of one byte. *)
Theorem parse_metadata_tiny `{Mechanism} (ptr_ : list byte) (zap_flag : bool)
    (m : mechanism_t) :
  (length ptr_ < 5)%nat ->
  (parse_metadata ptr_ zap_flag m = Some (0, m)
   \/ parse_metadata ptr_ zap_flag m = Some (-1, set_errno EPROTO m))
  /\ (ptr_ = [] -> parse_metadata ptr_ zap_flag m = Some (0, m))
  /\ (length ptr_ = 1%nat ->
      parse_metadata ptr_ zap_flag m = Some (-1, set_errno EPROTO m)).
Proof.
  intros Hlen. split; [|split].
  - destruct (Nat.le_gt_cases (length ptr_) 1) as [Hshort|Hlong].
    { rewrite parse_metadata_short by exact Hshort.
      destruct (0 <? _); auto. }
    rewrite parse_metadata_step by exact Hlong.
    destruct (loop_body_decode zap_flag ptr_ m Hlong)
      as [(b & E & _)|(p & ptr' & _ & Eptr & _)].
    + rewrite E. destruct (0 <? b); auto.
    + exfalso. rewrite Eptr, length_app in Hlen.
      pose proof (length_wire_property p). lia.
  - intros ->. reflexivity.
  - intros H1. rewrite parse_metadata_short by lia. rewrite H1. reflexivity.
Qed.

Lemma parse_metadata_tiny_witness :
  parse_metadata [x03; x61; x62; x63] true req_mechanism
  = Some (0, req_mechanism)
  \/ parse_metadata [x03; x61; x62; x63] true req_mechanism
     = Some (-1, set_errno EPROTO req_mechanism).
Proof.
  apply (parse_metadata_tiny [x03; x61; x62; x63] true req_mechanism).
  cbn. lia.
Defined.
